(** * Episodic few-shot evaluation: a shallow embedding of
    [classification/src/steps/method_evaluation.py]

    The step [MethodEvaluation] groups precomputed features by label
    ([_process_features]), samples N-way K-shot episodes from the groups
    ([_set_classification_task]), scores a classifier on each episode
    ([_feature_evaluation]) and appends a summary with a 95% confidence
    half-width to [results.txt] ([apply], [_confidence_interval]).

    Conventions of the embedding.
    - Python exceptions are values of [exn]; a computation that may raise
      returns a [result].
    - Code that draws random numbers or writes the results file is written
      in the monad [M S], a state monad whose state survives an exception
      (the state of the process is still there when [apply] raises).
    - NumPy arrays are lists; a 1-d array of numbers is a [list A], a 2-d
      array a list of rows.  Floating point numbers are idealised: the
      accuracy of one episode is a rational ([Q]), the statistics of a run
      are real numbers ([R]).  [nan] and [inf] are not represented, so the
      statements about means and divisions carry the hypothesis that the
      denominator is positive.
    - Counts ([n_way], [n_shot], [n_query], [n_iter], [n_swaps]) are natural
      numbers, as the docstring of [__init__] describes them.
    - The classification methods, the backbones, the data managers and the
      helpers of [utils] are collaborators: parameters of the development
      ([Runtime], [Collaborators]).  [random_swap_numpy] is modelled from
      the specification.

    The file has the definitions first (NumPy helpers, the FeaturePool
    builder, episodes, the step), then concrete collaborators for the
    examples, then the properties. *)

From Stdlib Require Import String Ascii DecimalString.
From Stdlib Require Import List ZArith Arith Lia Bool.
From Stdlib Require Import Permutation Sorted QArith Qround Reals Lra.
Import ListNotations.

Set Implicit Arguments.
Local Open Scope string_scope.
Local Open Scope list_scope.
Local Open Scope nat_scope.

(** ** Python exceptions and results *)

Inductive exn : Type :=
| ValueError (msg : string)
| IndexError (msg : string)
| KeyError (msg : string)
| TypeError (msg : string)
| ExternalError (msg : string).   (* raised by a collaborator outside this file *)

Inductive result (A : Type) : Type :=
| Ok (a : A)
| Raise (e : exn).

Arguments Ok {A} a.
Arguments Raise {A} e.

(** ** The monad of stateful code that may raise *)

Definition M (S A : Type) : Type := S -> result A * S.

Definition ret {S A} (a : A) : M S A := fun s => (Ok a, s).

Definition raise {S A} (e : exn) : M S A := fun s => (Raise e, s).

Definition bind {S A B} (c : M S A) (k : A -> M S B) : M S B :=
  fun s =>
    match c s with
    | (Ok a, s') => k a s'
    | (Raise e, s') => (Raise e, s')
    end.

Definition lift_result {S A} (r : result A) : M S A := fun s => (r, s).

Declare Scope py_scope.
Delimit Scope py_scope with py.
Notation "x <- c ;; k" := (bind c (fun x => k))
  (at level 100, c at next level, right associativity) : py_scope.
Notation "' pat <- c ;; k" := (bind c (fun x => match x with pat => k end))
  (at level 100, pat pattern, c at next level, right associativity) : py_scope.
Local Open Scope py_scope.

(** ** NumPy and list helpers *)

(** [l[i]] on a Python list or the first axis of an array. *)
Definition getitem {A} (l : list A) (i : nat) : result A :=
  match nth_error l i with
  | Some a => Ok a
  | None => Raise (IndexError "index out of range")
  end.

(** [np.unique(labels).tolist()]: the distinct labels in ascending order. *)
Fixpoint insert_unique (x : Z) (l : list Z) : list Z :=
  match l with
  | [] => [x]
  | y :: l' =>
      if (x <? y)%Z then x :: l
      else if (x =? y)%Z then l
      else y :: insert_unique x l'
  end.

Definition np_unique (labels : list Z) : list Z :=
  fold_right insert_unique [] labels.

(** ** The FeaturePool: a Python [dict] from label to list of vectors

    A [dict] iterates in insertion order, so it is an association list with
    distinct keys. *)

Section FeaturePool.

Variable A : Type.                 (* the numbers of a feature vector *)
Variable nonzero : A -> bool.      (* truth value of a number *)

Definition vector : Type := list A.
Definition pool : Type := list (Z * list vector).

Definition keys (d : pool) : list Z := map fst d.

(** The (label, vector) pairs that a pool holds, class by class. *)
Definition instances (d : pool) : list (Z * vector) :=
  flat_map (fun kv => map (pair (fst kv)) (snd kv)) d.

(** [d[k]] *)
Fixpoint lookup (d : pool) (k : Z) : result (list vector) :=
  match d with
  | [] => Raise (KeyError "label")
  | (k', v) :: d' => if (k =? k')%Z then Ok v else lookup d' k
  end.

(** [d[k].append(x)] *)
Fixpoint dict_append (d : pool) (k : Z) (x : vector) : result pool :=
  match d with
  | [] => Raise (KeyError "label")
  | (k', v) :: d' =>
      if (k =? k')%Z then Ok ((k', v ++ [x]) :: d')
      else match dict_append d' k x with
           | Ok d'' => Ok ((k', v) :: d'')
           | Raise e => Raise e
           end
  end.

(** [row.any()] *)
Definition any (row : vector) : bool := existsb nonzero row.

(** The loop
<<
    while not features[-1].any():
        features = np.delete(features, -1, axis=0)
        labels = np.delete(labels, -1, axis=0)
>>
    It looks at and deletes the last row only, so it is a recursion on the
    arrays read from their end: both arguments are the arrays reversed.
    [features[-1]] on an array without rows raises [IndexError], and so
    does [np.delete] at index -1 of an array without rows. *)
Fixpoint trim_reversed (rfeatures : list vector) (rlabels : list Z)
  : result (list vector * list Z) :=
  match rfeatures with
  | [] => Raise (IndexError "index -1 is out of bounds for axis 0 with size 0")
  | row :: rfeatures' =>
      if any row then Ok (rfeatures, rlabels)
      else match rlabels with
           | [] => Raise (IndexError "index -1 is out of bounds for axis 0 with size 0")
           | _ :: rlabels' => trim_reversed rfeatures' rlabels'
           end
  end.

Definition trim_trailing_zeros (features : list vector) (labels : list Z)
  : result (list vector * list Z) :=
  match trim_reversed (rev features) (rev labels) with
  | Ok (rf, rl) => Ok (rev rf, rev rl)
  | Raise e => Raise e
  end.

(** The loop
<<
    for ind in range(len(labels)):
        features_per_label[labels[ind]].append(features[ind])
>>
    walks the two arrays in step; [features[ind]] raises [IndexError] when
    the features run out first. *)
Fixpoint group_by_label (labels : list Z) (features : list vector)
    (d : pool) : result pool :=
  match labels with
  | [] => Ok d
  | l :: labels' =>
      match features with
      | [] => Raise (IndexError "index out of bounds for axis 0")
      | f :: features' =>
          match dict_append d l f with
          | Ok d' => group_by_label labels' features' d'
          | Raise e => Raise e
          end
      end
  end.

(** [_process_features], lines 263-286. *)
Definition _process_features (features_and_labels : list vector * list Z)
  : result pool :=
  let '(features, labels) := features_and_labels in
  match trim_trailing_zeros features labels with
  | Raise e => Raise e
  | Ok (features, labels) =>
      let features_per_label := map (fun label => (label, [])) (np_unique labels) in
      group_by_label labels features features_per_label
  end.

End FeaturePool.

(** ** The state of the Python process outside this class

    NumPy's global generator (and whatever else the collaborators keep:
    torch's generator, class attributes of the backbones) is a state
    [rt_state].  [permutation n] is [np.random.permutation(n)] and
    [randint n] is [np.random.randint(n)] for a positive [n]; what NumPy
    documents about their results is all the embedding knows of them. *)

Class Runtime : Type := {
  rt_state : Type;
  permutation : nat -> rt_state -> list nat * rt_state;
  randint : nat -> rt_state -> nat * rt_state;
  permutation_perm :
    forall n g, Permutation (fst (permutation n g)) (seq 0 n);
  randint_lt :
    forall n g, 0 < n -> fst (randint n g) < n
}.

Section Numpy.

Context {RT : Runtime}.

Definition np_random_permutation (n : nat) : M rt_state (list nat) :=
  fun g => let '(p, g') := permutation n g in (Ok p, g').

(** [np.random.randint(n)] raises [ValueError] unless [0 < n]. *)
Definition np_random_randint (n : nat) : M rt_state nat :=
  if n =? 0 then raise (ValueError "high <= 0")
  else fun g => let '(x, g') := randint n g in (Ok x, g').

Fixpoint map_result {X Y} (f : X -> result Y) (l : list X) : result (list Y) :=
  match l with
  | [] => Ok []
  | x :: l' =>
      match f x with
      | Raise e => Raise e
      | Ok y => match map_result f l' with
                | Raise e => Raise e
                | Ok ys => Ok (y :: ys)
                end
      end
  end.

(** [np.random.choice(a, size=size, replace=False)]: NumPy checks the
    sizes and returns [a[permutation(len(a))[:size]]]. *)
Definition np_random_choice {X} (a : list X) (size : nat) : M rt_state (list X) :=
  if (length a =? 0) && negb (size =? 0)
  then raise (ValueError "'a' cannot be empty unless no samples are taken")
  else if length a <? size
  then raise (ValueError "Cannot take a larger sample than population when 'replace=False'")
  else
    p <- np_random_permutation (length a) ;;
    lift_result (map_result (getitem a) (firstn size p)).

(** The indices that a sampling step keeps: the first [k] of a permutation
    of [0..n-1]; they are [k] distinct numbers below [n]. *)
Definition drawn (k n : nat) (g : rt_state) : list nat :=
  firstn k (fst (permutation n g)).

(** A [for] loop that collects one value per element. *)
Fixpoint mapM {S X Y} (f : X -> M S Y) (l : list X) : M S (list Y) :=
  match l with
  | [] => ret []
  | x :: l' => y <- f x ;; ys <- mapM f l' ;; ret (y :: ys)
  end.

(** [l[i] = x] *)
Fixpoint setitem {X} (l : list X) (i : nat) (x : X) : result (list X) :=
  match l, i with
  | [], _ => Raise (IndexError "index out of range")
  | _ :: l', 0 => Ok (x :: l')
  | y :: l', S i' =>
      match setitem l' i' x with
      | Ok l'' => Ok (y :: l'')
      | Raise e => Raise e
      end
  end.

(** [np.repeat(range(n), k)]: each of 0..n-1, k times, in order. *)
Definition np_repeat_range (n k : nat) : list nat :=
  flat_map (fun i => repeat i k) (seq 0 n).

(** [row.argmax()]: the first position of the largest entry. *)
Fixpoint argmax_from (best : nat) (best_val : Q) (i : nat) (row : list Q) : nat :=
  match row with
  | [] => best
  | x :: row' =>
      if Qle_bool x best_val then argmax_from best best_val (S i) row'
      else argmax_from i x (S i) row'
  end.

Definition argmax (row : list Q) : result nat :=
  match row with
  | [] => Raise (ValueError "attempt to get argmax of an empty sequence")
  | x :: row' => Ok (argmax_from 0 x 1 row')
  end.

(** [pred == y] on two 1-d integer arrays, with NumPy's broadcasting of
    an array of length one.  Two lengths that do not broadcast raise
    (NumPy before 1.25 answers the scalar [False] with a warning instead;
    no statement below depends on that case). *)
Definition array_eq (pred y : list nat) : result (list bool) :=
  if length pred =? length y then Ok (map (fun '(p, t) => p =? t) (combine pred y))
  else match pred, y with
       | [p], _ => Ok (map (fun t => p =? t) y)
       | _, [t] => Ok (map (fun p => p =? t) pred)
       | _, _ => Raise (ValueError "operands could not be broadcast together")
       end.

(** [np.mean(b)] of a boolean array: the fraction of [True].  NumPy answers
    [nan] for an empty array; [Q] has no such value, so the empty array is
    outside the embedding, and the statements about the value of an
    accuracy carry the hypotheses that keep [b] from being empty. *)
Definition np_mean_bool (b : list bool) : Q :=
  inject_Z (Z.of_nat (count_occ bool_dec b true)) / inject_Z (Z.of_nat (length b)).

(** [np.mean] and [np.std] (population standard deviation, [ddof=0]). *)
Definition np_mean (l : list R) : R :=
  (fold_right Rplus 0 l / INR (length l))%R.

Definition np_std (l : list R) : R :=
  sqrt (np_mean (map (fun x => Rsqr (x - np_mean l)) l)).

End Numpy.

(** ** Episodes: the array [z_all] *)

Section Episode.

Variable A : Type.

(** What [np.squeeze] returns for a feature vector: the vector itself, or
    a 0-d array when the vector has exactly one entry (squeeze removes
    every axis of length one). *)
Inductive cell : Type :=
| Scalar (a : A)
| Vector (v : list A).

Definition np_squeeze (v : list A) : cell :=
  match v with
  | [a] => Scalar a
  | _ => Vector v
  end.

Definition cell_shape (c : cell) : list nat :=
  match c with
  | Scalar _ => []
  | Vector v => [length v]
  end.

(** A list of lists of cells; [z[c][i]] is instance [i] of class [c]. *)
Definition tensor : Type := list (list cell).

(** [np.array] looks at the shapes of the cells only. *)
Definition cell_shapes (z : tensor) : list (list (list nat)) :=
  map (map cell_shape) z.

Definition shape_eqb (s s' : list nat) : bool :=
  if list_eq_dec Nat.eq_dec s s' then true else false.

(** The nested list is rectangular: rows of one length, cells of one shape. *)
Definition rectangular (ss : list (list (list nat))) : bool :=
  match ss with
  | [] => true
  | r0 :: _ =>
      forallb (fun r => length r =? length r0) ss
      && match r0 with
         | [] => true
         | s0 :: _ => forallb (forallb (shape_eqb s0)) ss
         end
  end.

(** The shape of the array built from a rectangular nested list: the
    number of rows, the length of a row, then the shape of a cell. *)
Definition shape_of (ss : list (list (list nat))) : list nat :=
  match ss with
  | [] => [0]
  | [] :: _ => [length ss; 0]
  | (s0 :: r0) :: _ => length ss :: length (s0 :: r0) :: s0
  end.

Definition homogeneous (z : tensor) : bool := rectangular (cell_shapes z).

(** [z.shape] *)
Definition shape (z : tensor) : list nat := shape_of (cell_shapes z).

(** [np.array(z_all)] *)
Definition np_array (z : tensor) : result tensor :=
  if homogeneous z then Ok z
  else Raise (ValueError "setting an array element with a sequence: inhomogeneous shape").

(** [z[c, i]] and [z[c, i] = x] *)
Definition get_cell (z : tensor) (c i : nat) : result cell :=
  match getitem z c with
  | Ok row => getitem row i
  | Raise e => Raise e
  end.

Definition set_cell (z : tensor) (c i : nat) (x : cell) : result tensor :=
  match getitem z c with
  | Raise e => Raise e
  | Ok row =>
      match setitem row i x with
      | Raise e => Raise e
      | Ok row' => setitem z c row'
      end
  end.

(** The support region: the first [n] cells of every row. *)
Definition support (n : nat) (z : tensor) : tensor := map (firstn n) z.

(** The shape of a squeezed vector of dimension [d]. *)
Definition squeezed_shape (d : nat) : list nat := if d =? 1 then [] else [d].

Context {RT : Runtime}.

(** Modelled from the spec: one exchange of [random_swap_numpy] of
    [utils/utils.py], which is not among the sources.  The specification
    (sections 3 and 4.3) says: it performs exactly [n_swaps] exchanges; each
    exchanges the feature vectors at two support positions (index below
    [n_shot]) of two different classes; the draws are independent; the
    result has the shape of the input.  The two classes are drawn without
    replacement among the classes of the array, the two positions with
    [randint n_shot]. *)
Definition swap_once (z : tensor) (n_shot : nat) : M rt_state tensor :=
  classes <- np_random_choice (seq 0 (length z)) 2 ;;
  i1 <- np_random_randint n_shot ;;
  i2 <- np_random_randint n_shot ;;
  lift_result
    (match classes with
     | [c1; c2] =>
         match get_cell z c1 i1, get_cell z c2 i2 with
         | Ok x1, Ok x2 =>
             match set_cell z c1 i1 x2 with
             | Ok z' => set_cell z' c2 i2 x1
             | Raise e => Raise e
             end
         | Raise e, _ => Raise e
         | _, Raise e => Raise e
         end
     | _ => Raise (IndexError "index out of range")
     end).

(** Modelled from the spec: [random_swap_numpy(z_all, n_swaps, n_shot)] of
    [utils/utils.py], not among the sources: [n_swaps] exchanges in a row,
    each with its own draws; no exchange for [n_swaps = 0]. *)
Fixpoint random_swap_numpy (z : tensor) (n_swaps n_shot : nat) : M rt_state tensor :=
  match n_swaps with
  | 0 => ret z
  | S k => z' <- swap_once z n_shot ;; random_swap_numpy z' k n_shot
  end.

End Episode.

Arguments Scalar {A} a.
Arguments Vector {A} v.

(** ** The step and its collaborators *)

(** The attributes that [__init__] stores, lines 62-81. *)
Record MethodEvaluation : Type := {
  dataset : string;
  backbone : string;
  method : string;
  train_n_way : nat;
  test_n_way : nat;
  n_shot : nat;
  n_query : nat;
  train_aug : bool;
  split : string;
  save_iter : Z;
  n_iter : nat;
  adaptation : bool;
  random_seed : option Z;
  n_swaps : nat;
  checkpoint_dir : string
}.

(** [model_state]: a dict with the keys ['state'] and ['epoch']. *)
Record model_state (state_dict : Type) : Type := {
  state : state_dict;
  epoch : Z
}.

(** What [apply] writes to [results.txt]: the arguments of the format
    strings of lines 145-157 ([acc_str] is [n_iter], the mean and the
    half-width, printed with two decimals). *)
Record results_entry : Type := {
  setting : string;
  from_epoch : Z;
  acc_str : nat * R * R
}.

(** The process and the results file. *)
Record world (rt : Type) : Type := {
  proc : rt;
  results_txt : list results_entry
}.

(** The code this step calls and the sources do not contain: the methods
    of [classification.src.methods], [utils.backbones], [utils.io_utils] and
    the data managers.  Each may raise and may use the state of the process,
    and none is handed the results file. *)
Class Collaborators (A : Type) (RT : Runtime) : Type := {
  nn_module : Type;                       (* torch.nn.Module *)
  state_dict : Type;
  backbone_net : Type;
  data_manager : Type;
  data_loader : Type;
  model_dict : string -> option backbone_net;
  Conv4NP : backbone_net;
  Conv6NP : backbone_net;
  Conv4SNP : backbone_net;
  unflattened : string -> backbone_net;   (* lambda: model_dict[backbone](flatten=False) *)
  path_to_step_output : string -> string -> string -> string;
  set_and_print_random_seed : option Z -> bool -> string -> M rt_state unit;
  get_path_to_json : string -> string -> M rt_state string;
  BaselineFinetune : backbone_net -> option string -> nat -> nat -> M rt_state nn_module;
  ProtoNet : backbone_net -> nat -> nat -> M rt_state nn_module;
  MatchingNet : backbone_net -> nat -> nat -> M rt_state nn_module;
  RelationNet : backbone_net -> string -> nat -> nat -> M rt_state nn_module;
  MAML : backbone_net -> bool -> nat -> nat -> M rt_state nn_module;
  set_maml_flags : M rt_state unit;       (* backbones.<Block>.maml = True, four times *)
  cuda : nn_module -> M rt_state nn_module;
  load_state_dict : nn_module -> state_dict -> M rt_state nn_module;
  eval : nn_module -> M rt_state nn_module;
  set_n_query : nn_module -> nat -> nn_module;
  set_task_update_num : nn_module -> nat -> nn_module;
  (* scores.data.cpu().numpy() of the call, and the model after it *)
  set_forward : nn_module -> tensor A -> M rt_state (list (list Q) * nn_module);
  set_forward_adaptation : nn_module -> tensor A -> M rt_state (list (list Q) * nn_module);
  SetDataManager : nat -> nat -> nat -> nat -> nat -> M rt_state data_manager;
  get_data_loader : data_manager -> string -> bool -> M rt_state data_loader;
  eval_loop : nn_module -> data_loader -> nat -> M rt_state (R * R)
}.

Definition str_nat (n : nat) : string := NilEmpty.string_of_uint (Nat.to_uint n).
Definition str_Z (z : Z) : string := NilEmpty.string_of_int (Z.to_int z).

(** [pat in s] on strings. *)
Fixpoint contains (pat s : string) : bool :=
  if String.prefix pat s then true
  else match s with
       | EmptyString => false
       | String _ s' => contains pat s'
       end.

(** [x in [...]] on strings. *)
Definition str_in (x : string) (l : list string) : bool :=
  existsb (String.eqb x) l.

Section Evaluation.

Variable A : Type.
Variable nonzero : A -> bool.
Context {RT : Runtime} {CO : Collaborators A RT}.

(** [__init__], lines 62-81. *)
Definition __init__ (dataset backbone method : string)
    (train_n_way test_n_way n_shot n_query : nat) (train_aug : bool)
    (split : string) (save_iter : Z) (n_iter : nat) (adaptation : bool)
    (random_seed : option Z) (n_swaps : nat) : MethodEvaluation :=
  {| dataset := dataset; backbone := backbone; method := method;
     train_n_way := train_n_way; test_n_way := test_n_way;
     n_shot := n_shot; n_query := n_query; train_aug := train_aug;
     split := split; save_iter := save_iter; n_iter := n_iter;
     adaptation := adaptation; random_seed := random_seed;
     n_swaps := n_swaps;
     checkpoint_dir := path_to_step_output dataset backbone method |}.

(** One class of an episode, lines 203-205. *)
Definition sample_instances (self : MethodEvaluation) (img_feat : list (vector A))
  : M rt_state (list (cell A)) :=
  perm_ids <- np_random_permutation (length img_feat) ;;
  lift_result
    (map_result
       (fun i => match getitem perm_ids i with
                 | Raise e => Raise e
                 | Ok j => match getitem img_feat j with
                           | Raise e => Raise e
                           | Ok v => Ok (np_squeeze v)
                           end
                 end)
       (seq 0 (n_shot self + n_query self))).

(** The episode before the swaps, lines 198-207. *)
Definition sample_episode (self : MethodEvaluation) (features_per_label : pool A)
  : M rt_state (tensor A) :=
  let class_list := keys features_per_label in
  select_class <- np_random_choice class_list (test_n_way self) ;;
  z_all <- mapM (fun cl =>
                   img_feat <- lift_result (lookup features_per_label cl) ;;
                   sample_instances self img_feat)
                select_class ;;
  lift_result (np_array z_all).

(** Row [row] of an episode is drawn from class [cl] of the pool: it holds
    the squeezed vectors of [n_shot + n_query] distinct positions of the
    class. *)
Definition drawn_from (self : MethodEvaluation) (fpl : pool A) (cl : Z)
    (row : list (cell A)) : Prop :=
  exists vs ids,
    lookup fpl cl = Ok vs /\
    NoDup ids /\ length ids = n_shot self + n_query self /\
    (forall j, In j ids -> j < length vs) /\
    row = map (fun j => np_squeeze (nth j vs [])) ids.

(** The pools the sampler is meant for: a dict (distinct keys) with at
    least [n_way] classes, each with at least [n_shot + n_query] vectors,
    all vectors of dimension [d]. *)
Definition enough (self : MethodEvaluation) (fpl : pool A) (d : nat) : Prop :=
  NoDup (keys fpl) /\
  test_n_way self <= length (keys fpl) /\
  Forall (fun kv => n_shot self + n_query self <= length (snd kv)
                    /\ Forall (fun v => length v = d) (snd kv)) fpl.

(** [_set_classification_task], lines 187-211. *)
Definition _set_classification_task (self : MethodEvaluation)
    (features_per_label : pool A) : M rt_state (tensor A) :=
  z_all <- sample_episode self features_per_label ;;
  random_swap_numpy z_all (n_swaps self) (n_shot self).

(** Lines 183-184: the accuracy of the predictions, in percent. *)
Definition accuracy (self : MethodEvaluation) (pred : list nat) : result Q :=
  let y := np_repeat_range (test_n_way self) (n_query self) in
  match array_eq pred y with
  | Raise e => Raise e
  | Ok hits => Ok (np_mean_bool hits * 100)%Q
  end.

(** [_feature_evaluation], lines 164-185.  The model is a Python object
    that the calls may modify, so it is returned with the accuracy. *)
Definition _feature_evaluation (self : MethodEvaluation)
    (features_per_label : pool A) (model : nn_module) : M rt_state (Q * nn_module) :=
  z_all <- _set_classification_task self features_per_label ;;
  let model := set_n_query model (n_query self) in
  '(scores, model) <- (if adaptation self
                       then set_forward_adaptation model z_all
                       else set_forward model z_all) ;;
  pred <- lift_result (map_result argmax scores) ;;
  acc <- lift_result (accuracy self pred) ;;
  ret (acc, model).

(** [model_dict[self.backbone]] *)
Definition backbone_of (self : MethodEvaluation) : M rt_state backbone_net :=
  match model_dict (backbone self) with
  | Some b => ret b
  | None => raise (KeyError (backbone self))
  end.

(** [_load_model], lines 213-261. *)
Definition _load_model (self : MethodEvaluation) (ms : model_state state_dict)
  : M rt_state nn_module :=
  let n_way := test_n_way self in
  let n_support := n_shot self in
  model <-
    (if method self =? "baseline" then
       b <- backbone_of self ;; BaselineFinetune b None n_way n_support
     else if method self =? "baseline++" then
       b <- backbone_of self ;; BaselineFinetune b (Some "dist") n_way n_support
     else if method self =? "protonet" then
       b <- backbone_of self ;; ProtoNet b n_way n_support
     else if method self =? "matchingnet" then
       b <- backbone_of self ;; MatchingNet b n_way n_support
     else if str_in (method self) ["relationnet"; "relationnet_softmax"] then
       let feature_model :=
         if backbone self =? "Conv4" then Conv4NP
         else if backbone self =? "Conv6" then Conv6NP
         else if backbone self =? "Conv4S" then Conv4SNP
         else unflattened (backbone self) in
       let loss_type := if method self =? "relationnet" then "mse" else "softmax" in
       RelationNet feature_model loss_type n_way n_support
     else if str_in (method self) ["maml"; "maml_approx"] then
       _ <- set_maml_flags ;;
       b <- backbone_of self ;;
       MAML b (method self =? "maml_approx") n_way n_support
     else raise (ValueError "Unknown method"))%string ;;
  model <- cuda model ;;
  model <- (if negb (str_in (method self) ["baseline"; "baseline++"])
            then load_state_dict model (state ms)
            else ret model) ;;
  eval model.

(** [_confidence_interval], lines 288-297.  Line 297 computes in [float64];
    here the operations are those of the real numbers.  The statements
    about it are the formula itself, order properties and the values at
    [std = 0] and [n_iter = 1], which rounding to the nearest float
    preserves; no identity that rounding breaks is stated. *)
Definition _confidence_interval (self : MethodEvaluation) (std : R) : R :=
  (1.96 * std / sqrt (INR (n_iter self)))%R.

(** The loop of lines 131-135 ([print] is not modelled). *)
Fixpoint episodes (self : MethodEvaluation) (features_per_label : pool A)
    (model : nn_module) (n : nat) : M rt_state (list Q) :=
  match n with
  | 0 => ret []
  | S n' =>
      '(acc, model) <- _feature_evaluation self features_per_label model ;;
      acc_all <- episodes self features_per_label model n' ;;
      ret (acc :: acc_all)
  end.

Definition lift_rt {X} (c : M rt_state X) : M (world rt_state) X :=
  fun w =>
    let '(r, g) := c (proc w) in
    (r, {| proc := g; results_txt := results_txt w |}).

(** [f.write(...)] on the file opened for appending, line 154. *)
Definition write_results (e : results_entry) : M (world rt_state) unit :=
  fun w => (Ok tt, {| proc := proc w; results_txt := results_txt w ++ [e] |}).

(** Lines 100-104. *)
Definition split_str (self : MethodEvaluation) : string :=
  (if negb (save_iter self =? -1)%Z
   then split self ++ "_" ++ str_Z (save_iter self)
   else split self)%string.

(** Lines 142-151. *)
Definition exp_setting (self : MethodEvaluation) (split_str : string) : string :=
  (let aug_str := if train_aug self then "-aug" else "" in
   let aug_str := aug_str ++ (if adaptation self then "-adapted" else "") in
   let head := dataset self ++ "-" ++ split_str ++ "-" ++ backbone self ++ "-"
               ++ method self ++ aug_str ++ " " ++ str_nat (n_shot self) ++ "shot " in
   if str_in (method self) ["baseline"; "baseline++"]
   then head ++ str_nat (test_n_way self) ++ "way_test "
        ++ str_nat (n_swaps self) ++ "swaps"
   else head ++ str_nat (train_n_way self) ++ "way_train "
        ++ str_nat (test_n_way self) ++ "way_test")%string.

(** Lines 94-140 of [apply]: everything before the results file is
    opened; the value is the pair [(acc_mean, acc_std)]. *)
Definition statistics (self : MethodEvaluation) (ms : model_state state_dict)
    (features_and_labels : option (list (vector A) * list Z))
  : M (world rt_state) (R * R) :=
  _ <- lift_rt (set_and_print_random_seed (random_seed self) true (checkpoint_dir self)) ;;
  model <- lift_rt (_load_model self ms) ;;
  if str_in (method self) ["maml"; "maml_approx"] then
    let image_size := if contains "Conv" (backbone self) then 84 else 224 in
    set_data_manager <-
      lift_rt (SetDataManager image_size (n_iter self) (n_query self)
                              (test_n_way self) (n_shot self)) ;;
    path_to_data_file <- lift_rt (get_path_to_json (dataset self) (split self)) ;;
    novel_loader <- lift_rt (get_data_loader set_data_manager path_to_data_file false) ;;
    let model := if adaptation self then set_task_update_num model 100 else model in
    model <- lift_rt (eval model) ;;
    lift_rt (eval_loop model novel_loader (n_swaps self))
  else
    features_per_label <-
      lift_result (match features_and_labels with
                   | None => Raise (TypeError "cannot unpack non-iterable NoneType object")
                   | Some fl => _process_features nonzero fl
                   end) ;;
    acc_all <- lift_rt (episodes self features_per_label model (n_iter self)) ;;
    let acc_all := map Q2R acc_all in
    ret (np_mean acc_all, np_std acc_all).

(** [apply], lines 83-159: the statistics, then the block
    [with open(..., 'a') as f] of lines 141-158. *)
Definition apply (self : MethodEvaluation) (ms : model_state state_dict)
    (features_and_labels : option (list (vector A) * list Z))
  : M (world rt_state) R :=
  '(acc_mean, acc_std) <- statistics self ms features_and_labels ;;
  _ <- write_results {| setting := exp_setting self (split_str self);
                        from_epoch := epoch ms;
                        acc_str := (n_iter self, acc_mean, _confidence_interval self acc_std) |} ;;
  ret acc_mean.

(** [dump_output], lines 161-162: [pass]. *)
Definition dump_output (self : MethodEvaluation) {X} (_ : X)
    (output_folder output_name : string) : M (world rt_state) unit :=
  ret tt.

(** Computations that leave the results file alone. *)
Definition keeps_results {X} (c : M (world rt_state) X) : Prop :=
  forall w, results_txt (snd (c w)) = results_txt w.

(** The entry that a run with the statistics [acc_mean], [acc_std] writes. *)
Definition entry_of (self : MethodEvaluation) (ms : model_state state_dict)
    (acc_mean acc_std : R) : results_entry :=
  {| setting := exp_setting self (split_str self);
     from_epoch := epoch ms;
     acc_str := (n_iter self, acc_mean, _confidence_interval self acc_std) |}.

(** The loop of lines 131-135 seen from its iterations: [acc_all] and the
    model after [k] iterations ([episodes_after] relates it to
    [episodes]). *)
Fixpoint after_episodes (self : MethodEvaluation) (features_per_label : pool A)
    (model : nn_module) (k : nat) : M rt_state (list Q * nn_module) :=
  match k with
  | 0 => ret ([], model)
  | S k' =>
      '(acc_all, model) <- after_episodes self features_per_label model k' ;;
      '(acc, model) <- _feature_evaluation self features_per_label model ;;
      ret (acc_all ++ [acc], model)
  end.

(** The contract of the classification methods along one loop: in each of
    the first [n] iterations of the loop started with [model] in state [g],
    the forward pass (lines 177-181), when it returns, gives one row of
    scores per query instance, [test_n_way * n_query] rows.  With a positive
    number of queries, [pred == y] is then not an empty array, whose
    [np.mean] would be [nan]. *)
Definition scores_every_query (self : MethodEvaluation) (features_per_label : pool A)
    (model : nn_module) (g : rt_state) (n : nat) : Prop :=
  forall k acc_all model_k g_k z_all g1 scores model' g2,
    k < n ->
    after_episodes self features_per_label model k g = (Ok (acc_all, model_k), g_k) ->
    _set_classification_task self features_per_label g_k = (Ok z_all, g1) ->
    (if adaptation self then set_forward_adaptation else set_forward)
      (set_n_query model_k (n_query self)) z_all g1 = (Ok (scores, model'), g2) ->
    length scores = test_n_way self * n_query self.

End Evaluation.

(** ** Definitions that follow the specification's words *)

(** "Insertion order of first occurrence": every label once, in the order
    in which the labels first appear. *)
Fixpoint first_occurrences (labels : list Z) : list Z :=
  match labels with
  | [] => []
  | l :: labels' =>
      l :: filter (fun l' => negb (l' =? l)%Z) (first_occurrences labels')
  end.

(** The "fixed enumerated set" of method identifiers. *)
Definition enumerated_methods : list string :=
  ["baseline"; "baseline++"; "protonet"; "matchingnet"; "relationnet";
   "relationnet_softmax"; "maml"; "maml_approx"].

(** "The fraction of matching predictions, expressed as a percentage",
    where the ground truth of query [i] is the class index [i / n_query]
    (each class index repeated [n_query] times, in class order). *)
Definition matching (n_query : nat) (pred : list nat) : nat :=
  length (filter (fun i => nth i pred 0 =? i / n_query) (seq 0 (length pred))).

Definition percent_matching (n_query : nat) (pred : list nat) : Q :=
  (inject_Z (Z.of_nat (matching n_query pred))
   / inject_Z (Z.of_nat (length pred)) * 100)%Q.

(** ** A concrete process and concrete collaborators for the examples *)

Definition Z_nonzero (z : Z) : bool := negb (z =? 0)%Z.

(** A generator whose permutations are rotations: the state is a number,
    advanced by a linear congruence. *)
Definition rotate {X} (k : nat) (l : list X) : list X := skipn k l ++ firstn k l.

Definition lcg (g : nat) : nat := (5 * g + 3) mod 16.

Lemma rotate_perm {X} k (l : list X) : Permutation (rotate k l) l.
Proof.
  unfold rotate. rewrite Permutation_app_comm. now rewrite firstn_skipn.
Qed.

Lemma mod_lt_pos n g : 0 < n -> g mod n < n.
Proof. intros H; apply Nat.mod_upper_bound; lia. Qed.

Definition rotating : Runtime :=
  {| rt_state := nat;
     permutation := fun n g => (rotate (g mod n) (seq 0 n), lcg g);
     randint := fun n g => (g mod n, lcg g);
     permutation_perm := fun n g => rotate_perm (g mod n) (seq 0 n);
     randint_lt := fun n g H => mod_lt_pos g H |}.

(** A classifier that answers class 0 for every query: a model is the pair
    of its [n_way] and [n_query].  Its forward pass raises in the states of
    the process that [fails] selects. *)
Definition class0_scores (m : nat * nat) : list (list Q) :=
  repeat (1%Q :: repeat 0%Q (fst m - 1)) (fst m * snd m).

Definition forward_class0 (fails : nat -> bool) (m : nat * nat)
  : M nat (list (list Q) * (nat * nat)) :=
  fun g => if fails g then (Raise (ExternalError "CUDA out of memory"), g)
           else (Ok (class0_scores m, m), g).

Definition class0 (fails : nat -> bool) : Collaborators Z rotating :=
  {| nn_module := (nat * nat)%type;
     state_dict := list Z;
     backbone_net := unit;
     data_manager := unit;
     data_loader := unit;
     model_dict := fun name => if (name =? "Conv4")%string then Some tt else None;
     Conv4NP := tt;
     Conv6NP := tt;
     Conv4SNP := tt;
     unflattened := fun _ => tt;
     path_to_step_output := fun d b m => (d ++ "/" ++ b ++ "/" ++ m)%string;
     set_and_print_random_seed := fun seed _ _ (g : @rt_state rotating) =>
       (Ok tt, match seed with Some z => Z.to_nat z | None => g end);
     get_path_to_json := fun d s => ret (d ++ "/" ++ s ++ ".json")%string;
     BaselineFinetune := fun _ _ n_way _ => ret (n_way, 0);
     ProtoNet := fun _ n_way _ => ret (n_way, 0);
     MatchingNet := fun _ n_way _ => ret (n_way, 0);
     RelationNet := fun _ _ n_way _ => ret (n_way, 0);
     MAML := fun _ _ n_way _ => ret (n_way, 0);
     set_maml_flags := ret tt;
     cuda := fun m => ret m;
     load_state_dict := fun m st => ret (fst m + length st, snd m);
     eval := fun m => ret m;
     set_n_query := fun m q => (fst m, q);
     set_task_update_num := fun m _ => m;
     set_forward := fun m _ => forward_class0 fails m;
     set_forward_adaptation := fun m _ => forward_class0 fails m;
     SetDataManager := fun _ _ _ _ _ => ret tt;
     get_data_loader := fun _ _ _ => ret tt;
     eval_loop := fun _ _ _ => ret (0%R, 0%R) |}.

Definition always_class0 : Collaborators Z rotating := class0 (fun _ => false).

(** The same classifier, out of memory when the process is in state 5. *)
Definition flaky_class0 : Collaborators Z rotating := class0 (Nat.eqb 5).

(** A classifier that is right on every query when the state of the process
    is even and answers class 0 when it is odd, so that the accuracies of a
    run differ from one episode to the next. *)
Definition oracle_scores (m : nat * nat) : list (list Q) :=
  flat_map (fun c => repeat (map (fun j => if j =? c then 1%Q else 0%Q) (seq 0 (fst m)))
                            (snd m))
           (seq 0 (fst m)).

Definition forward_even (m : nat * nat) : M nat (list (list Q) * (nat * nat)) :=
  fun g => (Ok (if Nat.even g then oracle_scores m else class0_scores m, m), g).

Definition even_oracle : Collaborators Z rotating :=
  {| nn_module := (nat * nat)%type;
     state_dict := list Z;
     backbone_net := unit;
     data_manager := unit;
     data_loader := unit;
     model_dict := fun name => if (name =? "Conv4")%string then Some tt else None;
     Conv4NP := tt;
     Conv6NP := tt;
     Conv4SNP := tt;
     unflattened := fun _ => tt;
     path_to_step_output := fun d b m => (d ++ "/" ++ b ++ "/" ++ m)%string;
     set_and_print_random_seed := fun seed _ _ (g : @rt_state rotating) =>
       (Ok tt, match seed with Some z => Z.to_nat z | None => g end);
     get_path_to_json := fun d s => ret (d ++ "/" ++ s ++ ".json")%string;
     BaselineFinetune := fun _ _ n_way _ => ret (n_way, 0);
     ProtoNet := fun _ n_way _ => ret (n_way, 0);
     MatchingNet := fun _ n_way _ => ret (n_way, 0);
     RelationNet := fun _ _ n_way _ => ret (n_way, 0);
     MAML := fun _ _ n_way _ => ret (n_way, 0);
     set_maml_flags := ret tt;
     cuda := fun m => ret m;
     load_state_dict := fun m st => ret (fst m + length st, snd m);
     eval := fun m => ret m;
     set_n_query := fun m q => (fst m, q);
     set_task_update_num := fun m _ => m;
     set_forward := fun m _ => forward_even m;
     set_forward_adaptation := fun m _ => forward_even m;
     SetDataManager := fun _ _ _ _ _ => ret tt;
     get_data_loader := fun _ _ _ => ret tt;
     eval_loop := fun _ _ _ => ret (0%R, 0%R) |}.

(** A pool of three classes of four vectors, and a step of the baseline
    method on it: 2-way, 1-shot, 2 queries. *)
Definition abc_pool : pool Z :=
  [(10, [[1;1]; [1;2]; [1;3]; [1;4]]);
   (20, [[2;1]; [2;2]; [2;3]; [2;4]]);
   (30, [[3;1]; [3;2]; [3;3]; [3;4]])]%Z.

Definition abc_features : list (vector Z) * list Z :=
  ([[1;1]; [2;1]; [3;1]; [1;2]; [2;2]; [3;2]; [1;3]; [2;3]; [3;3]; [1;4]; [2;4]; [3;4]; [0;0]]%Z,
   [10; 20; 30; 10; 20; 30; 10; 20; 30; 10; 20; 30; 0]%Z).

(** A pool whose feature vectors have one entry. *)
Definition dim1_pool : pool Z :=
  [(10, [[1]; [2]; [3]]); (20, [[4]; [5]; [6]])]%Z.

(** An episode array: two classes of three instances. *)
Definition two_by_three : tensor Z :=
  [[Vector [1; 1]; Vector [1; 2]; Vector [1; 3]];
   [Vector [2; 1]; Vector [2; 2]; Vector [2; 3]]]%Z.

Definition step (method : string) (n_way n_iter n_swaps : nat) : MethodEvaluation :=
  __init__ (CO := always_class0) "CUB" "Conv4" method 5 n_way 1 2 false "novel" (-1)%Z
           n_iter false (Some 7%Z) n_swaps.

(** A 2-way, 1-shot, 2-query baseline step of three episodes, two
    checkpoints of the same epoch, and a process with an empty results file. *)
Definition baseline_2way : MethodEvaluation := step "baseline" 2 3 0.

(** The same step with four episodes, and with a single one. *)
Definition four_episodes : MethodEvaluation := step "baseline" 2 4 0.

Definition single_episode : MethodEvaluation := step "baseline" 2 1 0.

(** A 2-way step that asks for 2 + 2 instances of a class. *)
Definition four_per_class : MethodEvaluation :=
  __init__ (CO := always_class0) "CUB" "Conv4" "baseline" 5 2 2 2 false "novel" (-1)%Z
           3 false None 0.

(** A prototypical-network step on a backbone that [model_dict] of the
    concrete collaborators does not hold. *)
Definition resnet_step : MethodEvaluation :=
  __init__ (CO := always_class0) "CUB" "ResNet10" "protonet" 5 2 1 2 false "novel" (-1)%Z
           3 false (Some 7%Z) 0.

Definition checkpoint : model_state (list Z) := {| state := [1; 2]%Z; epoch := 5%Z |}.

Definition other_checkpoint : model_state (list Z) := {| state := [9]%Z; epoch := 5%Z |}.

Definition fresh : world nat := {| proc := 0; results_txt := [] |}.

(** * Properties *)

(** ** The monad *)

Lemma bind_ok {S X Y} (c : M S X) (k : X -> M S Y) s x s' :
  c s = (Ok x, s') -> bind c k s = k x s'.
Proof. intros H; unfold bind; now rewrite H. Qed.

Lemma bind_raise {S X Y} (c : M S X) (k : X -> M S Y) s e s' :
  c s = (Raise e, s') -> bind c k s = (Raise e, s').
Proof. intros H; unfold bind; now rewrite H. Qed.

Lemma bind_inv_ok {S X Y} (c : M S X) (k : X -> M S Y) s y s2 :
  bind c k s = (Ok y, s2) ->
  exists x s1, c s = (Ok x, s1) /\ k x s1 = (Ok y, s2).
Proof.
  unfold bind; destruct (c s) as [[x|e] s1]; intros H.
  - now exists x, s1.
  - discriminate.
Qed.

(** ** The FeaturePool builder *)

Section FeaturePoolFacts.

Variable A : Type.
Variable nonzero : A -> bool.

Lemma insert_unique_In x y l :
  In y (insert_unique x l) <-> y = x \/ In y l.
Proof.
  induction l as [|z l IH]; simpl.
  - intuition.
  - destruct (Z.ltb_spec x z); [simpl; intuition|].
    destruct (Z.eqb_spec x z); simpl.
    + subst; intuition.
    + rewrite IH; intuition.
Qed.

Lemma insert_unique_sorted x l :
  StronglySorted Z.lt l -> StronglySorted Z.lt (insert_unique x l).
Proof.
  induction 1 as [|z l Hs IH Hall]; simpl.
  - repeat constructor.
  - destruct (Z.ltb_spec x z).
    + constructor; [now constructor|].
      constructor; [assumption|].
      rewrite Forall_forall in *; intros w Hw; specialize (Hall w Hw); lia.
    + destruct (Z.eqb_spec x z); [now constructor|].
      constructor; [assumption|].
      rewrite Forall_forall in *; intros w Hw.
      apply insert_unique_In in Hw as [->|Hw]; [lia|auto].
Qed.

Lemma np_unique_In y labels : In y (np_unique labels) <-> In y labels.
Proof.
  induction labels as [|x l IH]; simpl; [tauto|].
  rewrite insert_unique_In, IH; intuition.
Qed.

Lemma np_unique_sorted labels : StronglySorted Z.lt (np_unique labels).
Proof.
  induction labels; simpl; [constructor|now apply insert_unique_sorted].
Qed.

Lemma dict_append_keys (d d' : pool A) k x :
  dict_append d k x = Ok d' -> keys d' = keys d.
Proof.
  revert d'; induction d as [|[k' v] d IH]; simpl; intros d' H; [discriminate|].
  destruct (k =? k')%Z.
  - now inversion H.
  - destruct (dict_append d k x) as [d''|]; [|discriminate].
    inversion H; subst; simpl; f_equal; now apply IH.
Qed.

Lemma group_by_label_keys labels : forall features (d d' : pool A),
  group_by_label labels features d = Ok d' -> keys d' = keys d.
Proof.
  induction labels as [|l labels IH]; simpl; intros features d d' H.
  - now inversion H.
  - destruct features as [|f features]; [discriminate|].
    destruct (dict_append d l f) as [d1|] eqn:E; [|discriminate].
    rewrite (IH _ _ _ H). now apply dict_append_keys in E.
Qed.

Lemma keys_empty_lists (u : list Z) :
  keys (map (fun label => (label, @nil (vector A))) u) = u.
Proof. unfold keys; rewrite map_map; simpl; apply map_id. Qed.

(** What the trimming loop returns: the input without a block of trailing
    rows that are all zero, the labels cut by as many entries, and a last
    row that is not all zero. *)
Lemma trim_reversed_spec rf : forall rl rf' rl',
  trim_reversed nonzero rf rl = Ok (rf', rl') ->
  exists zs ds,
    rf = zs ++ rf' /\ rl = ds ++ rl' /\ length zs = length ds /\
    Forall (fun row => any nonzero row = false) zs /\
    exists row rest, rf' = row :: rest /\ any nonzero row = true.
Proof.
  induction rf as [|row rf IH]; simpl; intros rl rf' rl' H; [discriminate|].
  destruct (any nonzero row) eqn:E.
  - inversion H; subst. exists [], []; repeat split; eauto.
  - destruct rl as [|l rl]; [discriminate|].
    destruct (IH _ _ _ H) as (zs & ds & -> & -> & Hlen & Hz & Hlast).
    exists (row :: zs), (l :: ds); simpl; repeat split; auto.
Qed.

Lemma trim_trailing_zeros_spec features labels features' labels' :
  trim_trailing_zeros nonzero features labels = Ok (features', labels') ->
  exists zs ds,
    features = features' ++ zs /\ labels = labels' ++ ds /\
    length zs = length ds /\
    Forall (fun row => any nonzero row = false) zs /\
    exists front row, features' = front ++ [row] /\ any nonzero row = true.
Proof.
  unfold trim_trailing_zeros.
  destruct (trim_reversed nonzero (rev features) (rev labels)) as [[rf rl]|] eqn:E;
    [|discriminate].
  intros H; inversion H; subst; clear H.
  destruct (trim_reversed_spec _ _ E) as (zs & ds & Hf & Hl & Hlen & Hz & row & rest & -> & Hrow).
  exists (rev zs), (rev ds); repeat split.
  - rewrite <- rev_app_distr, <- Hf; now rewrite rev_involutive.
  - rewrite <- rev_app_distr, <- Hl; now rewrite rev_involutive.
  - now rewrite !length_rev.
  - now apply Forall_rev.
  - exists (rev rest), row; simpl; auto.
Qed.

(** Rows that are all zero are all deleted ([msg] is the message of
    NumPy's [IndexError]). *)
Lemma trim_reversed_all_zero rf : forall rl,
  Forall (fun row => any nonzero row = false) rf ->
  exists msg, trim_reversed nonzero rf rl = Raise (IndexError msg).
Proof.
  induction rf as [|row rf IH]; simpl; intros rl H; [eauto|].
  inversion H as [|? ? Hrow Hrest]; subst; rewrite Hrow.
  destruct rl; eauto.
Qed.

(** C9: when every row of the features is all zero (also when there is no
    row), the builder does not return the empty pool: the trimming loop
    deletes every row and then raises [IndexError] at [features[-1]]. *)
Theorem process_features_all_zero_raises features labels :
  Forall (fun row => any nonzero row = false) features ->
  exists msg, _process_features nonzero (features, labels) = Raise (IndexError msg).
Proof.
  intros H; unfold _process_features, trim_trailing_zeros.
  destruct (trim_reversed_all_zero (rev labels) (Forall_rev H)) as [msg ->].
  now exists msg.
Qed.

(** C6, as amended: the keys of the mapping that [_process_features]
    builds are the distinct labels that remain after the trimming, in
    strictly ascending order (the order of [np.unique]), whatever the
    order in which the labels first occur. *)
Theorem process_features_keys_ascending features labels fpl :
  _process_features nonzero (features, labels) = Ok fpl ->
  exists features' labels' dropped,
    trim_trailing_zeros nonzero features labels = Ok (features', labels') /\
    labels = labels' ++ dropped /\
    keys fpl = np_unique labels' /\
    StronglySorted Z.lt (keys fpl) /\
    (forall k, In k (keys fpl) <-> In k labels').
Proof.
  unfold _process_features.
  destruct (trim_trailing_zeros nonzero features labels) as [[f' l']|] eqn:E;
    [|discriminate].
  intros H. apply group_by_label_keys in H. rewrite keys_empty_lists in H.
  destruct (trim_trailing_zeros_spec _ _ E) as (zs & ds & _ & Hl & _).
  exists f', l', ds; rewrite H; repeat split; auto.
  - apply np_unique_sorted.
  - apply np_unique_In.
  - apply np_unique_In.
Qed.

End FeaturePoolFacts.

Example process_features_ex :
  _process_features Z_nonzero
    ([[1;0]; [0;2]; [3;3]; [0;0]; [0;0]]%Z, [7; 5; 7; 9; 9]%Z)
  = Ok [(5, [[0;2]]); (7, [[1;0]; [3;3]])]%Z.
Proof. reflexivity. Qed.

(** Section 8 of the specification: the last 3 of 10 rows are zero, the
    seventh is not; 7 instances remain. *)
Example trim_keeps_seven :
  trim_trailing_zeros Z_nonzero
    [[1];[0];[1];[1];[0];[1];[2];[0];[0];[0]]%Z [0;0;0;1;1;1;1;1;1;1]%Z
    = Ok ([[1];[0];[1];[1];[0];[1];[2]]%Z, [0;0;0;1;1;1;1]%Z).
Proof. reflexivity. Qed.

Lemma process_features_keys_ascending_witness :
  exists features' labels' dropped,
    trim_trailing_zeros Z_nonzero [[1]; [1]; [0]]%Z [2; 1; 3]%Z = Ok (features', labels') /\
    [2; 1; 3]%Z = labels' ++ dropped /\
    keys [(1, [[1]]); (2, [[1]])]%Z = np_unique labels' /\
    StronglySorted Z.lt (keys [(1, [[1]]); (2, [[1]])]%Z) /\
    (forall k, In k (keys [(1, [[1]]); (2, [[1]])]%Z) <-> In k labels').
Proof.
  apply (@process_features_keys_ascending Z Z_nonzero [[1]; [1]; [0]]%Z [2; 1; 3]%Z).
  reflexivity.
Defined.

(** C6 as stated fails: for the labels 2, 1 the keys are 1, 2 while the
    order of first occurrence is 2, 1. *)
Lemma process_features_not_first_occurrence_order :
  _process_features Z_nonzero ([[1]; [1]]%Z, [2; 1]%Z)
    = Ok [(1, [[1]]); (2, [[1]])]%Z /\
  first_occurrences [2; 1]%Z = [2; 1]%Z /\
  keys [(1, [[1]]); (2, [[1]])]%Z <> first_occurrences [2; 1]%Z.
Proof. repeat split; discriminate. Qed.

(** Two rows of zeros: the builder raises. *)
Example two_zero_rows :
  _process_features Z_nonzero ([[0; 0]; [0; 0]]%Z, [3; 4]%Z)
    = Raise (IndexError "index -1 is out of bounds for axis 0 with size 0").
Proof. reflexivity. Qed.

Lemma process_features_all_zero_raises_witness :
  Forall (fun row => any Z_nonzero row = false) [[0; 0]; [0; 0]]%Z /\
  exists msg,
    _process_features Z_nonzero ([[0; 0]; [0; 0]]%Z, [3; 4]%Z) = Raise (IndexError msg).
Proof.
  assert (H : Forall (fun row => any Z_nonzero row = false) [[0; 0]; [0; 0]]%Z)
    by (repeat constructor).
  split; [exact H|].
  apply (@process_features_all_zero_raises Z Z_nonzero [[0; 0]; [0; 0]]%Z [3; 4]%Z H).
Defined.

(** ** Scoring one episode *)

Lemma map_seq_offset {X} (f : nat -> X) len : forall a,
  map f (seq a len) = map (fun j => f (a + j)) (seq 0 len).
Proof.
  induction len as [|len IH]; intros a; simpl; [reflexivity|].
  rewrite Nat.add_0_r; f_equal.
  rewrite IH, <- seq_shift, map_map.
  apply map_ext; intros j; f_equal; lia.
Qed.

Lemma map_const_seq {X} (f : nat -> X) (x : X) k a :
  (forall j, a <= j < a + k -> f j = x) -> map f (seq a k) = repeat x k.
Proof.
  revert a; induction k as [|k IH]; intros a H; simpl; [reflexivity|].
  rewrite H by lia; f_equal; apply IH; intros j Hj; apply H; lia.
Qed.

Lemma flat_repeat_div k n : forall s,
  flat_map (fun i => repeat i k) (seq s n)
  = map (fun j => s + j / k) (seq 0 (n * k)).
Proof.
  destruct k as [|k].
  - intros s; rewrite Nat.mul_0_r; simpl.
    induction (seq s n); simpl; auto.
  - induction n as [|n IH]; intros s; [reflexivity|].
    cbn [seq flat_map]; rewrite IH.
    replace (S n * S k) with (S k + n * S k) by lia.
    rewrite seq_app, map_app; f_equal.
    + symmetry; apply map_const_seq; intros j Hj.
      rewrite Nat.div_small by lia; lia.
    + rewrite (map_seq_offset _ (n * S k) (0 + S k)).
      apply map_ext; intros j.
      replace (0 + S k + j) with (j + 1 * S k) by lia.
      rewrite Nat.div_add by lia; lia.
Qed.

(** The ground truth of query [i] is [i / n_query]. *)
Lemma np_repeat_range_div n k :
  np_repeat_range n k = map (fun i => i / k) (seq 0 (n * k)).
Proof. unfold np_repeat_range; rewrite flat_repeat_div; reflexivity. Qed.

Lemma length_np_repeat_range n k : length (np_repeat_range n k) = n * k.
Proof. now rewrite np_repeat_range_div, length_map, length_seq. Qed.

Lemma count_hits (f : nat -> nat) pred : forall s,
  count_occ bool_dec
    (map (fun '(p, t) => p =? t) (combine pred (map f (seq s (length pred))))) true
  = length (filter (fun i => nth (i - s) pred 0 =? f i) (seq s (length pred))).
Proof.
  induction pred as [|p pred IH]; intros s; [reflexivity|].
  assert (E : filter (fun i => nth (i - s) (p :: pred) 0 =? f i) (seq (S s) (length pred))
              = filter (fun i => nth (i - S s) pred 0 =? f i) (seq (S s) (length pred))).
  { apply filter_ext_in; intros i Hi; apply in_seq in Hi.
    replace (i - s) with (S (i - S s)) by lia; reflexivity. }
  cbn [length seq map combine filter].
  rewrite E, Nat.sub_diag.
  change (nth 0 (p :: pred) 0) with p.
  destruct (p =? f s); simpl; rewrite IH; reflexivity.
Qed.

Section EvaluationFacts.

Variable A : Type.
Variable nonzero : A -> bool.
Context {RT : Runtime} {CO : Collaborators A RT}.

Lemma accuracy_percent (self : MethodEvaluation) pred :
  length pred = test_n_way self * n_query self ->
  accuracy self pred = Ok (percent_matching (n_query self) pred).
Proof.
  intros Hlen; unfold accuracy, array_eq.
  rewrite length_np_repeat_range, Hlen, Nat.eqb_refl.
  unfold np_mean_bool, percent_matching, matching.
  rewrite length_map, length_combine, length_np_repeat_range, Hlen, Nat.min_id.
  rewrite np_repeat_range_div, <- Hlen, count_hits.
  do 6 f_equal.
  apply filter_ext; intros i; now rewrite Nat.sub_0_r.
Qed.

(** C2: when the classifier answers one prediction per query, the score
    of the episode is the fraction of predictions [pred[i]] equal to the
    class index [i / n_query], times 100. *)
Theorem feature_evaluation_is_percentage
    (self : MethodEvaluation) (fpl : pool A) (m : nn_module) g
    z g1 scores m' g2 pred :
  0 < test_n_way self * n_query self ->
  _set_classification_task self fpl g = (Ok z, g1) ->
  (if adaptation self then set_forward_adaptation else set_forward)
    (set_n_query m (n_query self)) z g1 = (Ok (scores, m'), g2) ->
  map_result argmax scores = Ok pred ->
  length pred = test_n_way self * n_query self ->
  _feature_evaluation self fpl m g
    = (Ok (percent_matching (n_query self) pred, m'), g2)
  /\ (forall i, i < length pred ->
        nth i (np_repeat_range (test_n_way self) (n_query self)) 0 = i / n_query self).
Proof.
  intros Hpos Hz Hfw Hpred Hlen; split.
  - unfold _feature_evaluation.
    rewrite (bind_ok _ _ _ Hz).
    assert (Hfw' : (if adaptation self
                    then set_forward_adaptation (set_n_query m (n_query self)) z
                    else set_forward (set_n_query m (n_query self)) z) g1
                   = (Ok (scores, m'), g2))
      by (destruct (adaptation self); exact Hfw).
    rewrite (bind_ok _ _ _ Hfw').
    unfold lift_result, bind, ret; rewrite Hpred, (accuracy_percent _ _ Hlen).
    reflexivity.
  - intros i Hi. rewrite np_repeat_range_div.
    transitivity (nth i (map (fun j => j / n_query self)
                             (seq 0 (test_n_way self * n_query self)))
                        ((fun j => j / n_query self) 0)).
    { apply nth_indep. rewrite length_map, length_seq; lia. }
    rewrite (map_nth (fun j => j / n_query self)), seq_nth by lia. reflexivity.
Qed.

End EvaluationFacts.

(** ** Lists, random choices and arrays *)

Lemma map_result_ok {X Y} (f : X -> result Y) (h : X -> Y) l :
  (forall x, In x l -> f x = Ok (h x)) -> map_result f l = Ok (map h l).
Proof.
  induction l as [|x l IH]; intros H; simpl; [reflexivity|].
  rewrite H by (now left). rewrite IH by (intros; apply H; now right).
  reflexivity.
Qed.

Lemma getitem_nth {X} (l : list X) i d :
  i < length l -> getitem l i = Ok (nth i l d).
Proof. intros H; unfold getitem; now rewrite (nth_error_nth' l d H). Qed.

Lemma getitem_ok_lt {X} (l : list X) i x : getitem l i = Ok x -> i < length l.
Proof.
  unfold getitem; destruct (nth_error l i) eqn:E; [|discriminate].
  intros _; apply nth_error_Some; congruence.
Qed.

Lemma getitem_ok_iff {X} (l : list X) i x :
  getitem l i = Ok x <-> nth_error l i = Some x.
Proof.
  unfold getitem; destruct (nth_error l i); split; intros H;
    inversion H; reflexivity.
Qed.

Lemma firstn_as_map {X} (l : list X) d k :
  k <= length l -> map (fun i => nth i l d) (seq 0 k) = firstn k l.
Proof.
  revert k; induction l as [|x l IH]; intros [|k] H; simpl in *; try reflexivity; [lia|].
  f_equal. rewrite <- seq_shift, map_map. apply IH; lia.
Qed.

Section NumpyFacts.

Context {RT : Runtime}.

Lemma permutation_length n g : length (fst (permutation n g)) = n.
Proof.
  rewrite (Permutation_length (permutation_perm n g)); apply length_seq.
Qed.

Lemma permutation_NoDup n g : NoDup (fst (permutation n g)).
Proof.
  apply (Permutation_NoDup (Permutation_sym (permutation_perm n g))), seq_NoDup.
Qed.

Lemma permutation_In n g i : In i (fst (permutation n g)) -> i < n.
Proof.
  intros H; apply (Permutation_in _ (permutation_perm n g)) in H.
  apply in_seq in H; lia.
Qed.

Lemma NoDup_firstn {X} k (l : list X) : NoDup l -> NoDup (firstn k l).
Proof.
  intros H; rewrite <- (firstn_skipn k l) in H. now apply NoDup_app_remove_r in H.
Qed.

Lemma In_firstn {X} k (l : list X) x : In x (firstn k l) -> In x l.
Proof. intros H; rewrite <- (firstn_skipn k l); apply in_or_app; now left. Qed.


Lemma drawn_length k n g : k <= n -> length (drawn k n g) = k.
Proof.
  intros H; unfold drawn. rewrite length_firstn, permutation_length; lia.
Qed.

Lemma drawn_NoDup k n g : NoDup (drawn k n g).
Proof. apply NoDup_firstn, permutation_NoDup. Qed.

Lemma drawn_lt k n g i : In i (drawn k n g) -> i < n.
Proof. intros H; apply In_firstn in H; eapply permutation_In; eauto. Qed.

Lemma np_random_permutation_eq n g :
  np_random_permutation n g = (Ok (fst (permutation n g)), snd (permutation n g)).
Proof. unfold np_random_permutation; now destruct (permutation n g). Qed.

(** [np.random.choice] on a population that is large enough. *)
Lemma np_random_choice_ok {X} (a : list X) size g d :
  size <= length a ->
  np_random_choice a size g
  = (Ok (map (fun i => nth i a d) (drawn size (length a) g)),
     snd (permutation (length a) g)).
Proof.
  intros H; unfold np_random_choice.
  assert (E1 : (length a =? 0) && negb (size =? 0) = false).
  { destruct (Nat.eqb_spec (length a) 0) as [E|]; [|reflexivity].
    assert (size = 0) as -> by lia; reflexivity. }
  assert (E2 : (length a <? size) = false) by (apply Nat.ltb_ge; lia).
  rewrite E1, E2.
  rewrite (bind_ok _ _ _ (np_random_permutation_eq (length a) g)).
  unfold lift_result; f_equal.
  apply map_result_ok; intros i Hi. apply getitem_nth. eapply drawn_lt; eauto.
Qed.

(** [np.random.choice] on a population that is too small. *)
Lemma np_random_choice_few {X} (a : list X) size g :
  length a < size ->
  exists msg, np_random_choice a size g = (Raise (ValueError msg), g).
Proof.
  intros H; unfold np_random_choice.
  destruct ((length a =? 0) && negb (size =? 0)); [eexists; reflexivity|].
  apply Nat.ltb_lt in H; rewrite H. eexists; reflexivity.
Qed.

Lemma chosen_NoDup {X} (a : list X) d (ids : list nat) :
  NoDup a -> NoDup ids -> (forall i, In i ids -> i < length a) ->
  NoDup (map (fun i => nth i a d) ids).
Proof.
  intros Ha Hids Hlt. apply Finite.Injective_map_NoDup_in; [|assumption].
  intros i j Hi Hj E. apply (proj1 (NoDup_nth a d) Ha); auto.
Qed.

Lemma chosen_incl {X} (a : list X) d (ids : list nat) :
  (forall i, In i ids -> i < length a) ->
  incl (map (fun i => nth i a d) ids) a.
Proof.
  intros Hlt x Hx. apply in_map_iff in Hx as (i & <- & Hi).
  apply nth_In; auto.
Qed.

End NumpyFacts.

(** ** Assignments into the episode array *)

Section TensorFacts.

Variable A : Type.
Implicit Types (z : tensor A) (x y : cell A) (row : list (cell A)).

Lemma setitem_ok {X} (l : list X) i (v : X) :
  i < length l -> exists l', setitem l i v = Ok l'.
Proof.
  revert i; induction l as [|h l IH]; intros [|i] H; simpl in *; try lia; eauto.
  destruct (IH i) as [l' ->]; [lia|eauto].
Qed.

Lemma setitem_spec {X} (l : list X) : forall i (v : X) l',
  setitem l i v = Ok l' ->
  i < length l /\ length l' = length l /\
  forall j, nth_error l' j = if j =? i then Some v else nth_error l j.
Proof.
  induction l as [|h l IH]; intros [|i] v l' H; simpl in H; try discriminate.
  - inversion H; subst; simpl; repeat split; [lia|].
    intros [|j]; reflexivity.
  - destruct (setitem l i v) as [l1|] eqn:E; [|discriminate].
    inversion H; subst. destruct (IH _ _ _ E) as (Hi & Hlen & Hnth).
    simpl; repeat split; [lia|lia|].
    intros [|j]; simpl; [reflexivity|apply Hnth].
Qed.

Lemma setitem_perm {X} (l : list X) : forall i (v old : X) l',
  setitem l i v = Ok l' -> getitem l i = Ok old ->
  Permutation (old :: l') (v :: l).
Proof.
  induction l as [|h l IH]; intros [|i] v old l' H G; simpl in H; try discriminate.
  - inversion H; subst. apply getitem_ok_iff in G; simpl in G.
    inversion G; subst. apply perm_swap.
  - destruct (setitem l i v) as [l1|] eqn:E; [|discriminate].
    inversion H; subst.
    assert (G' : getitem l i = Ok old) by (apply getitem_ok_iff; now apply getitem_ok_iff in G).
    rewrite perm_swap, (IH _ _ _ _ E G'). apply perm_swap.
Qed.

Lemma setitem_firstn {X} (l : list X) n : forall i (v : X) l',
  i < n -> setitem l i v = Ok l' -> setitem (firstn n l) i v = Ok (firstn n l').
Proof.
  revert n; induction l as [|h l IH]; intros n [|i] v l' Hi H; simpl in H; try discriminate;
    destruct n as [|n]; try lia.
  - inversion H; reflexivity.
  - destruct (setitem l i v) as [l1|] eqn:E; [|discriminate].
    inversion H; subst; simpl. erewrite IH; eauto. lia.
Qed.

(** How the assignments go through the first axis. *)
Lemma get_cell_here row z i : get_cell (row :: z) 0 i = getitem row i.
Proof. reflexivity. Qed.

Lemma get_cell_next row z c i : get_cell (row :: z) (S c) i = get_cell z c i.
Proof. reflexivity. Qed.

Lemma get_cell_nil c i : exists e, get_cell (@nil (list (cell A))) c i = Raise e.
Proof. unfold get_cell, getitem; destruct c; simpl; eauto. Qed.

Lemma set_cell_here row z i x :
  set_cell (row :: z) 0 i x
  = match setitem row i x with Ok row' => Ok (row' :: z) | Raise e => Raise e end.
Proof. unfold set_cell; simpl. now destruct (setitem row i x). Qed.

Lemma set_cell_next row z c i x :
  set_cell (row :: z) (S c) i x
  = match set_cell z c i x with Ok z' => Ok (row :: z') | Raise e => Raise e end.
Proof.
  unfold set_cell, getitem; simpl.
  destruct (nth_error z c) as [r|]; [|reflexivity].
  destruct (setitem r i x) as [r'|]; reflexivity.
Qed.

Lemma set_cell_nil c i x : exists e, set_cell (@nil (list (cell A))) c i x = Raise e.
Proof. unfold set_cell, getitem; destruct c; simpl; eauto. Qed.

Lemma set_cell_ok z : forall c i x y,
  get_cell z c i = Ok y -> exists z', set_cell z c i x = Ok z'.
Proof.
  induction z as [|row z IH]; intros c i x y H.
  - destruct (get_cell_nil c i) as [e E]; congruence.
  - destruct c as [|c].
    + rewrite get_cell_here in H. rewrite set_cell_here.
      destruct (setitem_ok row x (getitem_ok_lt _ _ H)) as [row' ->]; eauto.
    + rewrite get_cell_next in H. rewrite set_cell_next.
      destruct (IH _ _ x _ H) as [z' ->]; eauto.
Qed.

(** Reading after an assignment. *)
Lemma get_set_cell z : forall c i x z',
  set_cell z c i x = Ok z' ->
  forall c' i', get_cell z' c' i'
                = if (c' =? c) && (i' =? i) then Ok x else get_cell z c' i'.
Proof.
  induction z as [|row z IH]; intros c i x z' H c' i'.
  - destruct (set_cell_nil c i x) as [e E]; congruence.
  - destruct c as [|c].
    + rewrite set_cell_here in H.
      destruct (setitem row i x) as [row'|] eqn:E; [|discriminate].
      inversion H; subst. destruct c' as [|c']; [|reflexivity].
      rewrite !get_cell_here. unfold getitem.
      rewrite (proj2 (proj2 (setitem_spec _ _ _ E))).
      simpl; destruct (i' =? i); reflexivity.
    + rewrite set_cell_next in H.
      destruct (set_cell z c i x) as [z1|] eqn:E; [|discriminate].
      inversion H; subst. destruct c' as [|c']; [reflexivity|].
      rewrite !get_cell_next. apply (IH _ _ _ _ E).
Qed.

(** An assignment of a cell of the same shape keeps the shapes. *)
Lemma set_cell_shapes z : forall c i x y z',
  get_cell z c i = Ok y -> cell_shape x = cell_shape y ->
  set_cell z c i x = Ok z' -> cell_shapes z' = cell_shapes z.
Proof.
  induction z as [|row z IH]; intros c i x y z' G S H.
  - destruct (set_cell_nil c i x) as [e E]; congruence.
  - destruct c as [|c].
    + rewrite set_cell_here in H. rewrite get_cell_here in G.
      destruct (setitem row i x) as [row'|] eqn:E; [|discriminate].
      inversion H; subst. unfold cell_shapes; simpl; f_equal.
      apply getitem_ok_iff in G.
      destruct (setitem_spec _ _ _ E) as (Hi & Hlen & Hnth).
      apply nth_error_ext; intros j.
      rewrite !nth_error_map, Hnth.
      destruct (Nat.eqb_spec j i) as [->|]; [|reflexivity].
      rewrite G; simpl; now rewrite S.
    + rewrite set_cell_next in H. rewrite get_cell_next in G.
      destruct (set_cell z c i x) as [z1|] eqn:E; [|discriminate].
      inversion H; subst. unfold cell_shapes in *; simpl; f_equal.
      apply (IH _ _ _ _ _ G S E).
Qed.

(** An assignment exchanges one cell of the array for another. *)
Lemma set_cell_perm z : forall c i x y z',
  get_cell z c i = Ok y -> set_cell z c i x = Ok z' ->
  Permutation (y :: concat z') (x :: concat z).
Proof.
  induction z as [|row z IH]; intros c i x y z' G H.
  - destruct (set_cell_nil c i x) as [e E]; congruence.
  - destruct c as [|c].
    + rewrite set_cell_here in H. rewrite get_cell_here in G.
      destruct (setitem row i x) as [row'|] eqn:E; [|discriminate].
      inversion H; subst; simpl.
      change (Permutation ((y :: row') ++ concat z) ((x :: row) ++ concat z)).
      apply Permutation_app_tail. eapply setitem_perm; eauto.
    + rewrite set_cell_next in H. rewrite get_cell_next in G.
      destruct (set_cell z c i x) as [z1|] eqn:E; [|discriminate].
      inversion H; subst; simpl.
      rewrite Permutation_middle, (IH _ _ _ _ _ G E).
      symmetry; apply Permutation_middle.
Qed.


Lemma get_cell_support n z : forall c i,
  i < n -> get_cell (support n z) c i = get_cell z c i.
Proof.
  induction z as [|row z IH]; intros c i Hi.
  - destruct c; reflexivity.
  - destruct c as [|c]; simpl.
    + rewrite !get_cell_here. unfold getitem.
      rewrite nth_error_firstn. apply Nat.ltb_lt in Hi; now rewrite Hi.
    + rewrite !get_cell_next. now apply IH.
Qed.

Lemma set_cell_support n z : forall c i x z',
  i < n -> set_cell z c i x = Ok z' ->
  set_cell (support n z) c i x = Ok (support n z').
Proof.
  induction z as [|row z IH]; intros c i x z' Hi H.
  - destruct (set_cell_nil c i x) as [e E]; congruence.
  - destruct c as [|c]; simpl.
    + rewrite set_cell_here in *.
      destruct (setitem row i x) as [row'|] eqn:E; [|discriminate].
      inversion H; subst. now rewrite (setitem_firstn _ _ Hi E).
    + rewrite set_cell_next in *.
      destruct (set_cell z c i x) as [z1|] eqn:E; [|discriminate].
      inversion H; subst. now rewrite (IH _ _ _ _ Hi E).
Qed.

(** In a rectangular array all cells have one shape. *)
Lemma shape_eqb_eq s s' : shape_eqb s s' = true -> s = s'.
Proof. unfold shape_eqb; destruct (list_eq_dec Nat.eq_dec s s'); congruence. Qed.

Lemma homogeneous_cells z c i x c' i' x' :
  homogeneous z = true ->
  get_cell z c i = Ok x -> get_cell z c' i' = Ok x' ->
  cell_shape x = cell_shape x'.
Proof.
  unfold homogeneous, rectangular.
  assert (In_shape : forall c i x, get_cell z c i = Ok x ->
            exists r, In r (cell_shapes z) /\ In (cell_shape x) r).
  { intros c0 i0 x0 G; unfold get_cell in G.
    destruct (getitem z c0) as [row|] eqn:E; [|discriminate].
    exists (map (@cell_shape A) row); split.
    - apply in_map. apply getitem_ok_iff in E. eapply nth_error_In; eauto.
    - apply in_map. apply getitem_ok_iff in G. eapply nth_error_In; eauto. }
  intros H G G'.
  destruct (In_shape _ _ _ G) as (r & Hr & Hx).
  destruct (In_shape _ _ _ G') as (r' & Hr' & Hx').
  destruct (cell_shapes z) as [|r0 ss] eqn:E; [contradiction|].
  apply andb_true_iff in H as [Hlen Hall].
  rewrite forallb_forall in Hlen.
  destruct r0 as [|s0 r0].
  - apply Hlen, Nat.eqb_eq in Hr. destruct r; [contradiction|discriminate].
  - rewrite forallb_forall in Hall.
    pose proof (Hall _ Hr) as H1. pose proof (Hall _ Hr') as H2.
    rewrite forallb_forall in H1, H2.
    rewrite <- (shape_eqb_eq _ _ (H1 _ Hx)), <- (shape_eqb_eq _ _ (H2 _ Hx')).
    reflexivity.
Qed.

(** Two arrays of the same cell shapes that agree at every position
    [i >= n] have the same query region. *)
Lemma query_region_ext z z' n :
  cell_shapes z' = cell_shapes z ->
  (forall c i, n <= i -> get_cell z' c i = get_cell z c i) ->
  map (skipn n) z' = map (skipn n) z.
Proof.
  intros Hs Hq. apply nth_error_ext; intros c. rewrite !nth_error_map.
  assert (Hlen : length z' = length z).
  { apply (f_equal (@length _)) in Hs. unfold cell_shapes in Hs.
    now rewrite !length_map in Hs. }
  destruct (nth_error z' c) as [row'|] eqn:E'; destruct (nth_error z c) as [row|] eqn:E.
  - simpl; f_equal. apply nth_error_ext; intros j.
    rewrite !nth_error_skipn.
    specialize (Hq c (n + j) (Nat.le_add_r n j)).
    unfold get_cell, getitem in Hq. rewrite E', E in Hq.
    destruct (nth_error row' (n + j)), (nth_error row (n + j)); congruence.
  - apply nth_error_None in E. assert (c < length z') by (apply nth_error_Some; congruence). lia.
  - apply nth_error_None in E'. assert (c < length z) by (apply nth_error_Some; congruence). lia.
  - reflexivity.
Qed.

End TensorFacts.

(** ** The label noise injector *)

Section SwapFacts.

Variable A : Type.
Context {RT : Runtime}.
Implicit Types (z : tensor A).

Lemma np_random_choice_inv {X} (a : list X) size g l g' d :
  np_random_choice a size g = (Ok l, g') ->
  size <= length a /\
  l = map (fun i => nth i a d) (drawn size (length a) g) /\
  g' = snd (permutation (length a) g).
Proof.
  intros H. destruct (le_lt_dec size (length a)) as [Hle|Hlt].
  - rewrite (np_random_choice_ok a g d Hle) in H. inversion H; auto.
  - destruct (np_random_choice_few a g Hlt) as [msg E]. congruence.
Qed.

Lemma np_random_randint_inv n g i g' :
  np_random_randint n g = (Ok i, g') -> i < n.
Proof.
  unfold np_random_randint. destruct (Nat.eqb_spec n 0) as [|Hn]; [discriminate|].
  pose proof (@randint_lt RT n g) as Hlt.
  destruct (randint n g) as [x g1]; simpl in Hlt.
  intros H; inversion H; subst. apply Hlt; lia.
Qed.

Lemma np_random_randint_ok n g :
  0 < n -> exists i g', np_random_randint n g = (Ok i, g').
Proof.
  intros Hn; unfold np_random_randint.
  destruct (Nat.eqb_spec n 0); [lia|].
  destruct (randint n g) as [x g1]; eauto.
Qed.

(** What one exchange does when it returns. *)
Lemma swap_once_inv z n_shot g z' g' :
  swap_once z n_shot g = (Ok z', g') ->
  exists c1 c2 i1 i2 x1 x2 z1,
    c1 <> c2 /\ i1 < n_shot /\ i2 < n_shot /\
    get_cell z c1 i1 = Ok x1 /\ get_cell z c2 i2 = Ok x2 /\
    set_cell z c1 i1 x2 = Ok z1 /\ set_cell z1 c2 i2 x1 = Ok z'.
Proof.
  unfold swap_once; intros H.
  apply bind_inv_ok in H as (classes & g1 & Hc & H).
  apply bind_inv_ok in H as (i1 & g2 & Hi1 & H).
  apply bind_inv_ok in H as (i2 & g3 & Hi2 & H).
  apply np_random_randint_inv in Hi1, Hi2.
  apply (np_random_choice_inv _ _ _ 0) in Hc as (_ & Hc & _).
  assert (Hnd : NoDup classes).
  { subst classes. apply chosen_NoDup; [apply seq_NoDup|apply drawn_NoDup|].
    intros i Hi; eapply drawn_lt; eauto. }
  unfold lift_result in H.
  destruct classes as [|c1 [|c2 [|? ?]]]; try discriminate.
  destruct (get_cell z c1 i1) as [x1|] eqn:G1; [|discriminate].
  destruct (get_cell z c2 i2) as [x2|] eqn:G2; [|discriminate].
  destruct (set_cell z c1 i1 x2) as [z1|] eqn:S1; [|discriminate].
  inversion H; subst.
  exists c1, c2, i1, i2, x1, x2, z1; repeat split; auto.
  inversion Hnd as [|? ? Hnin _]; subst. intros ->. apply Hnin; now left.
Qed.

Lemma swap_once_frame z n_shot g z' g' :
  swap_once z n_shot g = (Ok z', g') ->
  (forall c i, n_shot <= i -> get_cell z' c i = get_cell z c i) /\
  Permutation (concat (support n_shot z')) (concat (support n_shot z)) /\
  (homogeneous z = true -> cell_shapes z' = cell_shapes z).
Proof.
  intros H.
  destruct (swap_once_inv _ _ _ H)
    as (c1 & c2 & i1 & i2 & x1 & x2 & z1 & Hne & Hi1 & Hi2 & G1 & G2 & S1 & S2).
  assert (G2' : get_cell z1 c2 i2 = Ok x2).
  { rewrite (get_set_cell _ _ _ _ S1).
    destruct ((c2 =? c1) && (i2 =? i1)); [reflexivity|assumption]. }
  repeat split.
  - intros c i Hi.
    rewrite (get_set_cell _ _ _ _ S2), (get_set_cell _ _ _ _ S1).
    destruct (Nat.eqb_spec i i2); [lia|]. destruct (Nat.eqb_spec i i1); [lia|].
    now rewrite !andb_false_r.
  - apply (@Permutation_cons_inv _ _ _ x2).
    rewrite (set_cell_perm (support n_shot z1) c2 i2 x1 (y := x2)
               (z' := support n_shot z')).
    + apply (set_cell_perm (support n_shot z) c1 i1 x2).
      * now rewrite get_cell_support.
      * now apply set_cell_support.
    + now rewrite get_cell_support.
    + now apply set_cell_support.
  - intros Hh.
    assert (E : cell_shape x1 = cell_shape x2)
      by (eapply homogeneous_cells; eauto).
    rewrite (set_cell_shapes _ _ _ _ G2' E S2).
    apply (set_cell_shapes _ _ _ _ G1 (eq_sym E) S1).
Qed.

Lemma get_cell_in_range z c i n :
  c < length (cell_shapes z) ->
  Forall (fun r => n <= length r) (cell_shapes z) -> i < n ->
  exists x, get_cell z c i = Ok x.
Proof.
  unfold cell_shapes; rewrite length_map; intros Hc Hall Hi.
  unfold get_cell. rewrite (getitem_nth z [] Hc).
  rewrite Forall_forall in Hall.
  assert (Hlen : n <= length (nth c z [])).
  { specialize (Hall (map (@cell_shape A) (nth c z []))).
    rewrite length_map in Hall. apply Hall, in_map, nth_In, Hc. }
  destruct (nth c z []) as [|x0 r] eqn:E; [simpl in Hlen; lia|].
  rewrite (getitem_nth (x0 :: r) x0) by lia. eauto.
Qed.

(** One exchange returns when there are two classes and a support position. *)
Lemma swap_once_returns z n_shot g :
  2 <= length (cell_shapes z) -> 0 < n_shot ->
  Forall (fun r => n_shot <= length r) (cell_shapes z) ->
  exists z' g', swap_once z n_shot g = (Ok z', g').
Proof.
  intros Hn Hs Hall. unfold swap_once.
  assert (Hn' : 2 <= length (seq 0 (length z)))
    by (rewrite length_seq; unfold cell_shapes in Hn; now rewrite length_map in Hn).
  rewrite (bind_ok _ _ _ (np_random_choice_ok (seq 0 (length z)) g 0 Hn')).
  set (g1 := snd (permutation _ g)).
  pose proof (drawn_length g Hn') as Hlen.
  assert (Hlt : forall i, In i (drawn 2 (length (seq 0 (length z))) g) -> i < length z).
  { intros i Hi. apply drawn_lt in Hi. now rewrite length_seq in Hi. }
  destruct (drawn 2 (length (seq 0 (length z))) g) as [|j1 [|j2 [|? ?]]];
    simpl in Hlen; try lia.
  destruct (np_random_randint_ok g1 Hs) as (i1 & g2 & E1).
  rewrite (bind_ok _ _ _ E1).
  destruct (np_random_randint_ok g2 Hs) as (i2 & g3 & E2).
  rewrite (bind_ok _ _ _ E2).
  apply np_random_randint_inv in E1, E2.
  unfold lift_result; cbn [map].
  assert (H1 : j1 < length z) by (apply Hlt; simpl; auto).
  assert (H2 : j2 < length z) by (apply Hlt; simpl; auto).
  rewrite !seq_nth by lia; cbn [Nat.add].
  assert (Hc : forall c, c < length z -> c < length (cell_shapes z))
    by (intros; unfold cell_shapes; now rewrite length_map).
  destruct (get_cell_in_range z (Hc _ H1) Hall E1) as [x1 G1].
  destruct (get_cell_in_range z (Hc _ H2) Hall E2) as [x2 G2].
  rewrite G1, G2.
  destruct (set_cell_ok _ _ _ x2 G1) as [z1 S1]. rewrite S1.
  assert (G2' : exists y, get_cell z1 j2 i2 = Ok y).
  { rewrite (get_set_cell _ _ _ _ S1).
    destruct ((j2 =? j1) && (i2 =? i1)); eauto. }
  destruct G2' as [y G2'].
  destruct (set_cell_ok _ _ _ x1 G2') as [z2 S2]. rewrite S2. eauto.
Qed.

(** The injector on a rectangular array: what its result is like when it
    returns, and when it does return. *)
Lemma random_swap_numpy_spec z n_swaps n_shot g :
  homogeneous z = true ->
  (forall z' g', random_swap_numpy z n_swaps n_shot g = (Ok z', g') ->
     shape z' = shape z /\
     cell_shapes z' = cell_shapes z /\
     (forall c i, n_shot <= i -> get_cell z' c i = get_cell z c i) /\
     Permutation (concat (support n_shot z')) (concat (support n_shot z)))
  /\
  (n_swaps = 0 \/
   (2 <= length z /\ 0 < n_shot /\ Forall (fun row => n_shot <= length row) z) ->
   exists z' g', random_swap_numpy z n_swaps n_shot g = (Ok z', g')).
Proof.
  revert z g; induction n_swaps as [|k IH]; intros z g Hh; split.
  - simpl; unfold ret; intros z' g' H; inversion H; subst; auto.
  - intros _; simpl; unfold ret; eauto.
  - intros z' g' H; simpl in H.
    apply bind_inv_ok in H as (z1 & g1 & H1 & H).
    destruct (swap_once_frame _ _ _ H1) as (F1 & P1 & S1).
    specialize (S1 Hh).
    assert (Hh1 : homogeneous z1 = true) by (unfold homogeneous; now rewrite S1).
    destruct (proj1 (IH z1 g1 Hh1) _ _ H) as (_ & S2 & F2 & P2).
    repeat split.
    + unfold shape; now rewrite S2, S1.
    + now rewrite S2.
    + intros c i Hi. now rewrite F2, F1.
    + now rewrite P2.
  - intros [Hk|(Hn & Hs & Hall)]; [discriminate|].
    assert (Hn' : 2 <= length (cell_shapes z))
      by (unfold cell_shapes; now rewrite length_map).
    assert (Hall' : Forall (fun r => n_shot <= length r) (cell_shapes z)).
    { unfold cell_shapes; rewrite Forall_map.
      eapply Forall_impl; [|exact Hall]. intros r; now rewrite length_map. }
    destruct (swap_once_returns z g Hn' Hs Hall') as (z1 & g1 & H1).
    destruct (swap_once_frame _ _ _ H1) as (_ & _ & S1). specialize (S1 Hh).
    assert (Hh1 : homogeneous z1 = true) by (unfold homogeneous; now rewrite S1).
    destruct (proj2 (IH z1 g1 Hh1)) as (z2 & g2 & H2).
    { right. rewrite <- S1 in Hn', Hall'. unfold cell_shapes in Hn', Hall'.
      rewrite length_map in Hn'. rewrite Forall_map in Hall'.
      repeat split; auto.
      revert Hall'; apply Forall_impl. intros r; now rewrite length_map. }
    exists z2, g2. simpl. now rewrite (bind_ok _ _ _ H1).
Qed.

(** C3: on a rectangular array, whatever the number of swaps and
    [n_shot], an array that the injector returns has the shape of its input,
    the same query region (the cells at the positions [i >= n_shot] of every
    class, one by one and as an array), and as support cells the support
    cells of the input in another arrangement.  The injector does return
    when no swap is asked for, or when the array has two classes and
    [n_shot >= 1] support positions in every class. *)
Theorem random_swap_numpy_frame z n_swaps n_shot g :
  homogeneous z = true ->
  (forall z' g', random_swap_numpy z n_swaps n_shot g = (Ok z', g') ->
     shape z' = shape z /\
     length z' = length z /\
     map (skipn n_shot) z' = map (skipn n_shot) z /\
     (forall c i, n_shot <= i -> get_cell z' c i = get_cell z c i) /\
     Permutation (concat (support n_shot z')) (concat (support n_shot z)))
  /\
  (n_swaps = 0 \/
   (2 <= length z /\ 0 < n_shot /\ Forall (fun row => n_shot <= length row) z) ->
   exists z' g', random_swap_numpy z n_swaps n_shot g = (Ok z', g')).
Proof.
  intros Hh. destruct (random_swap_numpy_spec z n_swaps n_shot g Hh) as [Hf Hr].
  split; [|exact Hr].
  intros z' g' H. destruct (Hf _ _ H) as (Hshape & Hs & Hq & Hp).
  repeat split; auto.
  - apply (f_equal (@length _)) in Hs. unfold cell_shapes in Hs.
    now rewrite !length_map in Hs.
  - now apply query_region_ext.
Qed.

End SwapFacts.

(** ** The episode sampler *)

Section SamplerFacts.

Variable A : Type.
Context {RT : Runtime}.
Implicit Types (fpl : pool A) (self : MethodEvaluation).



Lemma cell_shape_squeeze (v : list A) :
  cell_shape (np_squeeze v) = squeezed_shape (length v).
Proof. destruct v as [|a [|b v]]; reflexivity. Qed.

Lemma lookup_In fpl cl :
  In cl (keys fpl) -> exists vs, lookup fpl cl = Ok vs /\ In (cl, vs) fpl.
Proof.
  induction fpl as [|[k v] fpl IH]; simpl; [contradiction|].
  destruct (Z.eqb_spec cl k) as [->|Hne].
  - intros _; exists v; auto.
  - intros [E|H]; [congruence|].
    destruct (IH H) as (vs & ? & ?); eauto.
Qed.

Lemma sample_instances_ok self (vs : list (vector A)) g :
  n_shot self + n_query self <= length vs ->
  sample_instances self vs g
  = (Ok (map (fun j => np_squeeze (nth j vs []))
             (drawn (n_shot self + n_query self) (length vs) g)),
     snd (permutation (length vs) g)).
Proof.
  intros Hk; unfold sample_instances.
  rewrite (bind_ok _ _ _ (np_random_permutation_eq (length vs) g)).
  unfold lift_result; f_equal.
  set (p := fst (permutation (length vs) g)).
  assert (Hp : length p = length vs) by apply permutation_length.
  rewrite (map_result_ok _ (fun i => np_squeeze (nth (nth i p 0) vs []))).
  - unfold drawn; fold p.
    rewrite <- (firstn_as_map p 0) by lia. now rewrite map_map.
  - intros i Hi; apply in_seq in Hi.
    rewrite (getitem_nth p 0) by lia.
    rewrite (getitem_nth vs []); [reflexivity|].
    apply (permutation_In (length vs) g). apply nth_In.
    change (i < length p); lia.
Qed.

Lemma sample_rows_ok self fpl (classes : list Z) : forall g,
  (forall cl, In cl classes ->
     exists vs, lookup fpl cl = Ok vs /\ n_shot self + n_query self <= length vs) ->
  exists rows g',
    mapM (fun cl => img_feat <- lift_result (lookup fpl cl) ;;
                    sample_instances self img_feat) classes g
    = (Ok rows, g') /\
    Forall2 (drawn_from self fpl) classes rows.
Proof.
  induction classes as [|cl classes IH]; intros g H.
  - exists [], g; split; [reflexivity|constructor].
  - destruct (H cl (or_introl eq_refl)) as (vs & Hl & Hk).
    destruct (IH (snd (permutation (length vs) g))) as (rows & g' & E & F).
    { intros; apply H; now right. }
    eexists (_ :: rows), g'; split.
    + cbn [mapM]. unfold bind at 1. unfold bind at 1.
      unfold lift_result at 1. rewrite Hl, (sample_instances_ok _ _ g Hk).
      unfold bind at 1. rewrite E. reflexivity.
    + constructor; [|assumption].
      exists vs, (drawn (n_shot self + n_query self) (length vs) g).
      repeat split; auto.
      * apply drawn_NoDup.
      * now apply drawn_length.
      * intros j Hj; eapply drawn_lt; eauto.
Qed.

Lemma rectangular_repeat (s0 : list nat) k n :
  rectangular (repeat (repeat s0 k) n) = true.
Proof.
  destruct n as [|n]; [reflexivity|].
  unfold rectangular. change (repeat (repeat s0 k) (S n)) with (repeat s0 k :: repeat (repeat s0 k) n).
  apply andb_true_iff; split.
  - apply forallb_forall; intros r [<-|Hr]; [apply Nat.eqb_refl|].
    apply repeat_spec in Hr; subst; apply Nat.eqb_refl.
  - destruct k as [|k]; [reflexivity|]. cbn [repeat].
    assert (Hrow : forallb (shape_eqb s0) (s0 :: repeat s0 k) = true).
    { apply forallb_forall; intros s Hs.
      assert (s = s0) as -> by (destruct Hs as [<-|Hs]; [reflexivity|now apply repeat_spec in Hs]).
      unfold shape_eqb; destruct (list_eq_dec Nat.eq_dec s0 s0); congruence. }
    apply forallb_forall; intros r [<-|Hr]; [exact Hrow|].
    apply repeat_spec in Hr; subst; exact Hrow.
Qed.

Lemma shape_of_repeat (s0 : list nat) k n :
  0 < n -> 0 < k -> shape_of (repeat (repeat s0 k) n) = n :: k :: s0.
Proof.
  destruct n as [|n]; [lia|]; destruct k as [|k]; [lia|]; intros _ _.
  cbn [repeat shape_of length]. now rewrite !repeat_length.
Qed.

Lemma map_const_repeat {X Y} (f : X -> Y) (y : Y) l :
  (forall x, In x l -> f x = y) -> map f l = repeat y (length l).
Proof.
  induction l as [|x l IH]; intros H; simpl; [reflexivity|].
  rewrite H by (now left). f_equal. apply IH; intros; apply H; now right.
Qed.

Lemma drawn_rows_shapes self fpl d classes rows :
  Forall (fun kv => Forall (fun v => length v = d) (snd kv)) fpl ->
  incl classes (keys fpl) ->
  Forall2 (drawn_from self fpl) classes rows ->
  cell_shapes rows
  = repeat (repeat (squeezed_shape d) (n_shot self + n_query self)) (length classes).
Proof.
  intros Hd Hincl F. induction F as [|cl row classes rows D F IH]; [reflexivity|].
  unfold cell_shapes in *; cbn [map length repeat]. f_equal.
  - destruct D as (vs & ids & Hl & _ & Hlen & Hlt & ->).
    rewrite map_map, <- Hlen. apply map_const_repeat; intros j Hj.
    rewrite cell_shape_squeeze. f_equal.
    destruct (lookup_In fpl cl) as (vs' & Hl' & Hin); [apply Hincl; now left|].
    assert (vs' = vs) as -> by congruence.
    rewrite Forall_forall in Hd. specialize (Hd _ Hin); simpl in Hd.
    rewrite Forall_forall in Hd. apply Hd, nth_In, Hlt, Hj.
  - apply IH. intros x Hx; apply Hincl; now right.
Qed.


(** Lines 198-207 on such a pool: [n_way] distinct classes of the pool,
    and for each, in class order, a row of [n_shot + n_query] distinct
    instances of that class. *)
Lemma sample_episode_spec self fpl d g :
  enough self fpl d ->
  exists select_class z g',
    sample_episode self fpl g = (Ok z, g') /\
    length select_class = test_n_way self /\
    NoDup select_class /\ incl select_class (keys fpl) /\
    Forall2 (drawn_from self fpl) select_class z /\
    cell_shapes z
    = repeat (repeat (squeezed_shape d) (n_shot self + n_query self)) (test_n_way self).
Proof.
  intros (Hnd & Hway & Hall). unfold sample_episode.
  rewrite (bind_ok _ _ _ (np_random_choice_ok (keys fpl) g 0%Z Hway)).
  set (sel := map (fun i => nth i (keys fpl) 0%Z) (drawn _ _ g)).
  set (g1 := snd (permutation _ g)).
  assert (Hlt : forall i, In i (drawn (test_n_way self) (length (keys fpl)) g) ->
                          i < length (keys fpl)) by (intros i Hi; eapply drawn_lt; eauto).
  assert (Hincl : incl sel (keys fpl)) by (apply chosen_incl; assumption).
  assert (Hlen : length sel = test_n_way self)
    by (unfold sel; rewrite length_map; now apply drawn_length).
  destruct (sample_rows_ok self fpl sel g1) as (rows & g' & E & F).
  { intros cl Hcl. destruct (lookup_In fpl cl (Hincl _ Hcl)) as (vs & Hl & Hin).
    exists vs; split; [assumption|].
    rewrite Forall_forall in Hall. apply (Hall _ Hin). }
  assert (Hs : cell_shapes rows
               = repeat (repeat (squeezed_shape d) (n_shot self + n_query self))
                        (test_n_way self)).
  { rewrite <- Hlen. apply drawn_rows_shapes with (fpl := fpl); auto.
    eapply Forall_impl; [|exact Hall]. intros kv [_ H]; exact H. }
  exists sel, rows, g'. rewrite (bind_ok _ _ _ E).
  unfold lift_result, np_array, homogeneous. rewrite Hs, rectangular_repeat.
  repeat split; auto.
  apply chosen_NoDup; auto. apply drawn_NoDup.
Qed.

(** [_set_classification_task] on such a pool, when the dimension of the
    vectors is not 1: the episode has three axes, of lengths [n_way],
    [n_shot + n_query] and [d]; before the swaps its rows are drawn from
    [n_way] distinct classes without reuse of an instance; the swaps leave
    the query positions alone and rearrange the support cells. *)
Lemma set_classification_task_spec self fpl d g :
  enough self fpl d -> d <> 1 ->
  0 < test_n_way self -> 0 < n_shot self + n_query self ->
  n_swaps self = 0 \/ (2 <= test_n_way self /\ 0 < n_shot self) ->
  exists select_class z0 g0 z g',
    sample_episode self fpl g = (Ok z0, g0) /\
    _set_classification_task self fpl g = (Ok z, g') /\
    shape z = [test_n_way self; n_shot self + n_query self; d] /\
    length select_class = test_n_way self /\
    NoDup select_class /\ incl select_class (keys fpl) /\
    Forall2 (drawn_from self fpl) select_class z0 /\
    (forall c i, n_shot self <= i -> get_cell z c i = get_cell z0 c i) /\
    Permutation (concat (support (n_shot self) z)) (concat (support (n_shot self) z0)).
Proof.
  intros He Hd Hway Hk Hsw.
  destruct (sample_episode_spec g He) as (sel & z0 & g0 & E & Hlen & Hnd & Hincl & F & Hs).
  assert (Hh : homogeneous z0 = true)
    by (unfold homogeneous; rewrite Hs; apply rectangular_repeat).
  assert (Hshape : shape z0 = [test_n_way self; n_shot self + n_query self; d]).
  { unfold shape; rewrite Hs, shape_of_repeat by assumption.
    unfold squeezed_shape. destruct (Nat.eqb_spec d 1); [contradiction|reflexivity]. }
  destruct (random_swap_numpy_spec z0 (n_swaps self) (n_shot self) g0 Hh) as [Hf Hr].
  destruct Hr as (z & g' & R).
  { destruct Hsw as [?|[H2 H1]]; [now left|right].
    assert (Hz : length z0 = test_n_way self).
    { apply (f_equal (@length _)) in Hs.
      unfold cell_shapes in Hs; now rewrite length_map, repeat_length in Hs. }
    repeat split; [lia|assumption|].
    apply Forall_forall; intros row Hrow.
    assert (Hin : In (map (@cell_shape A) row) (cell_shapes z0)) by (now apply in_map).
    rewrite Hs in Hin. apply repeat_spec in Hin.
    apply (f_equal (@length _)) in Hin. rewrite length_map, repeat_length in Hin. lia. }
  destruct (Hf _ _ R) as (Hsh & _ & Hq & Hp).
  exists sel, z0, g0, z, g'; repeat split; auto.
  - unfold _set_classification_task. now rewrite (bind_ok _ _ _ E).
  - now rewrite Hsh.
Qed.

(** C1: on a pool that has enough classes and instances but whose feature
    vectors have one entry, the episode that [_set_classification_task]
    returns (here without swaps) has two axes, [(n_way, n_shot + n_query)],
    not the three that the specification and the docstring state:
    [np.squeeze] has removed the feature axis. *)
Theorem set_classification_task_dim1 self fpl g :
  enough self fpl 1 ->
  0 < test_n_way self -> 0 < n_shot self + n_query self ->
  n_swaps self = 0 ->
  exists z g',
    _set_classification_task self fpl g = (Ok z, g') /\
    shape z = [test_n_way self; n_shot self + n_query self] /\
    shape z <> [test_n_way self; n_shot self + n_query self; 1].
Proof.
  intros He Hway Hk Hsw.
  destruct (sample_episode_spec g He) as (sel & z & g' & E & _ & _ & _ & _ & Hs).
  assert (Hshape : shape z = [test_n_way self; n_shot self + n_query self]).
  { unfold shape. rewrite Hs, shape_of_repeat by assumption. reflexivity. }
  exists z, g'; repeat split.
  - unfold _set_classification_task. rewrite (bind_ok _ _ _ E), Hsw. reflexivity.
  - exact Hshape.
  - rewrite Hshape. discriminate.
Qed.

(** A pool with fewer classes than [n_way]: [np.random.choice] raises. *)
Lemma set_classification_task_few self fpl g :
  length (keys fpl) < test_n_way self ->
  exists msg, _set_classification_task self fpl g = (Raise (ValueError msg), g).
Proof.
  intros H. destruct (np_random_choice_few (keys fpl) g H) as [msg E].
  exists msg. unfold _set_classification_task, sample_episode.
  now rewrite (bind_raise _ _ _ (bind_raise _ _ _ E)).
Qed.

End SamplerFacts.

(** ** The statistics of a run *)

Lemma sum_squares_nonneg (c : R) (l : list R) :
  (0 <= fold_right Rplus 0 (map (fun x => Rsqr (x - c)) l))%R.
Proof.
  induction l as [|x l IH]; simpl; [lra|].
  pose proof (Rle_0_sqr (x - c)); lra.
Qed.

(** [np.std] is the population standard deviation: it is not negative and
    its square is the mean of the squared deviations from the mean. *)
Lemma np_std_population (l : list R) :
  l <> [] ->
  (0 <= np_std l)%R /\
  (Rsqr (np_std l)
   = fold_right Rplus 0 (map (fun x => Rsqr (x - np_mean l)) l) / INR (length l))%R.
Proof.
  intros Hl; split; [apply sqrt_pos|].
  unfold np_std. rewrite Rsqr_sqrt.
  - unfold np_mean at 1. now rewrite length_map.
  - unfold np_mean at 1. rewrite length_map.
    apply Rmult_le_pos; [apply sum_squares_nonneg|].
    apply Rlt_le, Rinv_0_lt_compat, lt_0_INR.
    destruct l; [congruence|simpl; lia].
Qed.

(** ** The run: [apply] *)

Section ApplyFacts.

Variable A : Type.
Variable nonzero : A -> bool.
Context {RT : Runtime} {CO : Collaborators A RT}.
Implicit Types (self : MethodEvaluation) (ms : model_state state_dict)
               (w : world rt_state) (fpl : pool A).

Lemma lift_rt_run {X} (c : M rt_state X) w r g :
  c (proc w) = (r, g) ->
  lift_rt c w = (r, {| proc := g; results_txt := results_txt w |}).
Proof. intros H; unfold lift_rt; now rewrite H. Qed.


Lemma keeps_lift_rt {X} (c : M rt_state X) : keeps_results (lift_rt c).
Proof. intros w; unfold lift_rt; now destruct (c (proc w)). Qed.

Lemma keeps_lift_result {X} (r : result X) :
  keeps_results (lift_result (S := world rt_state) r).
Proof. intros w; reflexivity. Qed.

Lemma keeps_ret {X} (x : X) : keeps_results (ret (S := world rt_state) x).
Proof. intros w; reflexivity. Qed.

Lemma keeps_bind {X Y} (c : M (world rt_state) X) (k : X -> M (world rt_state) Y) :
  keeps_results c -> (forall x, keeps_results (k x)) -> keeps_results (bind c k).
Proof.
  intros Hc Hk w; unfold bind. specialize (Hc w).
  destruct (c w) as [[x|e] w1]; simpl in *; [rewrite Hk|]; auto.
Qed.

Lemma statistics_keeps_results self ms fl :
  keeps_results (statistics nonzero self ms fl).
Proof.
  unfold statistics.
  apply keeps_bind; [apply keeps_lift_rt|intros _].
  apply keeps_bind; [apply keeps_lift_rt|intros m].
  destruct (str_in (method self) ["maml"; "maml_approx"]); cbv zeta.
  - repeat (apply keeps_bind; [apply keeps_lift_rt|intros ?]). apply keeps_lift_rt.
  - apply keeps_bind; [apply keeps_lift_result|intros fpl].
    apply keeps_bind; [apply keeps_lift_rt|intros accs]. apply keeps_ret.
Qed.

(** [apply] is [statistics] followed by the write. *)
Lemma apply_run self ms fl w :
  apply nonzero self ms fl w
  = match statistics nonzero self ms fl w with
    | (Ok (acc_mean, acc_std), w1) =>
        (Ok acc_mean,
         {| proc := proc w1;
            results_txt := results_txt w1 ++ [entry_of self ms acc_mean acc_std] |})
    | (Raise e, w1) => (Raise e, w1)
    end.
Proof.
  unfold apply, bind.
  destruct (statistics nonzero self ms fl w) as [[[m s]|e] w1]; reflexivity.
Qed.

(** The statistics on the feature path (every method but MAML). *)
Lemma statistics_on_features self ms fl w u g1 m g2 fpl :
  str_in (method self) ["maml"; "maml_approx"] = false ->
  set_and_print_random_seed (random_seed self) true (checkpoint_dir self) (proc w)
    = (Ok u, g1) ->
  _load_model self ms g1 = (Ok m, g2) ->
  _process_features nonzero fl = Ok fpl ->
  statistics nonzero self ms (Some fl) w
  = match episodes self fpl m (n_iter self) g2 with
    | (Ok acc_all, g3) =>
        (Ok (np_mean (map Q2R acc_all), np_std (map Q2R acc_all)),
         {| proc := g3; results_txt := results_txt w |})
    | (Raise e, g3) => (Raise e, {| proc := g3; results_txt := results_txt w |})
    end.
Proof.
  intros Hm Hseed Hload Hproc. unfold statistics.
  rewrite (bind_ok _ _ _ (lift_rt_run _ _ Hseed)).
  rewrite (bind_ok _ _ _ (lift_rt_run _ {| proc := g1; results_txt := results_txt w |} Hload)).
  rewrite Hm, Hproc. unfold bind, lift_result, lift_rt, ret; simpl.
  destruct (episodes self fpl m (n_iter self) g2) as [[accs|e] g3]; reflexivity.
Qed.

(** What a returning [statistics] went through on the feature path. *)
Lemma statistics_inv self ms fl w acc_mean acc_std w1 :
  str_in (method self) ["maml"; "maml_approx"] = false ->
  statistics nonzero self ms fl w = (Ok (acc_mean, acc_std), w1) ->
  exists fl' fpl m g acc_all,
    fl = Some fl' /\ _process_features nonzero fl' = Ok fpl /\
    episodes self fpl m (n_iter self) g = (Ok acc_all, proc w1) /\
    acc_mean = np_mean (map Q2R acc_all) /\ acc_std = np_std (map Q2R acc_all).
Proof.
  intros Hm H. unfold statistics in H.
  apply bind_inv_ok in H as (u & w2 & _ & H).
  apply bind_inv_ok in H as (m & w3 & _ & H).
  rewrite Hm in H.
  apply bind_inv_ok in H as (fpl & w4 & Hp & H).
  apply bind_inv_ok in H as (accs & w5 & He & H).
  unfold ret in H; inversion H; subst; clear H.
  unfold lift_result in Hp. destruct fl as [fl'|]; [|discriminate].
  inversion Hp; subst; clear Hp.
  unfold lift_rt in He.
  destruct (episodes self fpl m (n_iter self) (proc w4)) as [r g] eqn:E.
  inversion He; subst; clear He.
  exists fl', fpl, m, (proc w4), accs; simpl; auto.
Qed.

Lemma episodes_length self fpl : forall n m g acc_all g',
  episodes self fpl m n g = (Ok acc_all, g') -> length acc_all = n.
Proof.
  induction n as [|n IH]; intros m g accs g' H; simpl in H.
  - unfold ret in H; inversion H; reflexivity.
  - apply bind_inv_ok in H as ([acc m1] & g1 & _ & H).
    apply bind_inv_ok in H as (rest & g2 & Hr & H).
    unfold ret in H; inversion H; subst; simpl. f_equal. eapply IH; eauto.
Qed.

(** The loop after [k] iterations, then [r] more. *)
Lemma episodes_after self fpl m g : forall k r accs mk gk,
  after_episodes self fpl m k g = (Ok (accs, mk), gk) ->
  episodes self fpl m (k + r) g
  = match episodes self fpl mk r gk with
    | (Ok rest, g') => (Ok (accs ++ rest), g')
    | (Raise e, g') => (Raise e, g')
    end.
Proof.
  induction k as [|k IH]; intros r accs mk gk H.
  - simpl in H; unfold ret in H; inversion H; subst; simpl.
    now destruct (episodes self fpl mk r gk) as [[rest|e] g'].
  - simpl in H.
    apply bind_inv_ok in H as ([accs0 m0] & g0 & H0 & H).
    apply bind_inv_ok in H as ([acc m1] & g1 & H1 & H).
    unfold ret in H; inversion H; subst; clear H.
    replace (S k + r) with (k + S r) by lia.
    erewrite IH by exact H0. cbn [episodes].
    rewrite (bind_ok _ _ _ H1). unfold bind, ret.
    destruct (episodes self fpl mk r gk) as [[rest|e] g'];
      [rewrite <- app_assoc|]; reflexivity.
Qed.

(** An episode that raises at iteration [k < n] makes the loop raise. *)
Lemma episodes_abort self fpl m g k n accs mk gk e g' :
  k < n ->
  after_episodes self fpl m k g = (Ok (accs, mk), gk) ->
  _feature_evaluation self fpl mk gk = (Raise e, g') ->
  episodes self fpl m n g = (Raise e, g').
Proof.
  intros Hk Ha He. replace n with (k + S (n - S k)) by lia.
  erewrite episodes_after by exact Ha. cbn [episodes].
  now rewrite (bind_raise _ _ _ He).
Qed.

(** A loop that returns went through every iteration. *)
Lemma episodes_all_return self fpl : forall n m g acc_all g',
  episodes self fpl m n g = (Ok acc_all, g') ->
  forall k, k < n ->
    exists accs mk gk acc m' gk',
      after_episodes self fpl m k g = (Ok (accs, mk), gk) /\
      _feature_evaluation self fpl mk gk = (Ok (acc, m'), gk').
Proof.
  intros n m g acc_all g' H k.
  induction k as [|k IH]; intros Hk.
  - destruct n as [|n]; [lia|]. simpl in H.
    apply bind_inv_ok in H as ([acc m1] & g1 & H1 & _).
    exists [], m, g, acc, m1, g1; split; [reflexivity|assumption].
  - destruct IH as (accs & mk & gk & acc & m' & gk' & Ha & He); [lia|].
    assert (Ha' : after_episodes self fpl m (S k) g = (Ok (accs ++ [acc], m'), gk')).
    { simpl. rewrite (bind_ok _ _ _ Ha). now rewrite (bind_ok _ _ _ He). }
    destruct (_feature_evaluation self fpl m' gk') as [[[acc' m'']|e] g''] eqn:E.
    + exists (accs ++ [acc]), m', gk', acc', m'', g''; auto.
    + assert (E' : episodes self fpl m n g = (Raise e, g''))
        by (eapply episodes_abort; eauto).
      rewrite E' in H. discriminate.
Qed.

(** A run that returns has computed its statistics and appended its entry;
    a run that raises has raised in its statistics and appended nothing. *)
Lemma apply_ok_inv self ms fl w acc_mean w' :
  apply nonzero self ms fl w = (Ok acc_mean, w') ->
  exists acc_std w1,
    statistics nonzero self ms fl w = (Ok (acc_mean, acc_std), w1) /\
    results_txt w' = results_txt w ++ [entry_of self ms acc_mean acc_std].
Proof.
  rewrite apply_run.
  pose proof (statistics_keeps_results self ms fl w) as Hk.
  destruct (statistics nonzero self ms fl w) as [[[m s]|e] w1];
    simpl in Hk; [|discriminate].
  intros H; inversion H; subst; clear H.
  exists s, w1; simpl; now rewrite Hk.
Qed.

Lemma apply_raise_inv self ms fl w e w' :
  apply nonzero self ms fl w = (Raise e, w') ->
  statistics nonzero self ms fl w = (Raise e, w') /\
  results_txt w' = results_txt w.
Proof.
  rewrite apply_run.
  pose proof (statistics_keeps_results self ms fl w) as Hk.
  destruct (statistics nonzero self ms fl w) as [[[m s]|e'] w1];
    simpl in Hk; [discriminate|].
  intros H; inversion H; subst; auto.
Qed.

(** C5: whatever [apply] is given, if it raises the results file is as it
    was; it appends, and then exactly one entry, only after the statistics
    were computed, which on the feature path means that every one of the
    [n_iter] episodes returned. *)
Theorem apply_writes_only_after_success self ms fl w :
  match apply nonzero self ms fl w with
  | (Raise e, w') =>
      statistics nonzero self ms fl w = (Raise e, w') /\
      results_txt w' = results_txt w
  | (Ok acc_mean, w') =>
      exists acc_std w1,
        statistics nonzero self ms fl w = (Ok (acc_mean, acc_std), w1) /\
        results_txt w' = results_txt w ++ [entry_of self ms acc_mean acc_std] /\
        (str_in (method self) ["maml"; "maml_approx"] = false ->
         exists fl' fpl m g acc_all,
           fl = Some fl' /\ _process_features nonzero fl' = Ok fpl /\
           episodes self fpl m (n_iter self) g = (Ok acc_all, proc w1) /\
           length acc_all = n_iter self /\
           forall k, k < n_iter self ->
             exists accs mk gk acc m' gk',
               after_episodes self fpl m k g = (Ok (accs, mk), gk) /\
               _feature_evaluation self fpl mk gk = (Ok (acc, m'), gk'))
  end.
Proof.
  destruct (apply nonzero self ms fl w) as [[acc_mean|e] w'] eqn:Ha.
  - destruct (apply_ok_inv _ _ _ _ Ha) as (acc_std & w1 & E & Hw).
    exists acc_std, w1; repeat split; auto.
    intros Hm.
    destruct (statistics_inv _ _ _ _ Hm E)
      as (fl' & fpl & m & g & accs & -> & Hp & He & _ & _).
    exists fl', fpl, m, g, accs; repeat split; auto.
    + eapply episodes_length; eauto.
    + eapply episodes_all_return; eauto.
  - now apply apply_raise_inv.
Qed.

(** C7: on a pool with fewer classes than [n_way], choosing the classes
    raises [ValueError] (the specification's [InsufficientClassesError]);
    so do the sampler, the evaluation of an episode and the loop, and
    [apply], once it has reached its loop, raises it and writes nothing. *)
Theorem too_few_classes_raises self fpl :
  length (keys fpl) < test_n_way self ->
  forall g, exists msg,
    np_random_choice (keys fpl) (test_n_way self) g = (Raise (ValueError msg), g) /\
    _set_classification_task self fpl g = (Raise (ValueError msg), g) /\
    (forall m, _feature_evaluation self fpl m g = (Raise (ValueError msg), g)) /\
    (forall m n, episodes self fpl m (S n) g = (Raise (ValueError msg), g)) /\
    (forall ms fl w u g1 m,
       str_in (method self) ["maml"; "maml_approx"] = false ->
       set_and_print_random_seed (random_seed self) true (checkpoint_dir self) (proc w)
         = (Ok u, g1) ->
       _load_model self ms g1 = (Ok m, g) ->
       _process_features nonzero fl = Ok fpl ->
       0 < n_iter self ->
       apply nonzero self ms (Some fl) w
       = (Raise (ValueError msg), {| proc := g; results_txt := results_txt w |})).
Proof.
  intros Hfew g.
  destruct (np_random_choice_few (keys fpl) g Hfew) as [msg E].
  assert (E1 : _set_classification_task self fpl g = (Raise (ValueError msg), g)).
  { unfold _set_classification_task, sample_episode.
    now rewrite (bind_raise _ _ _ (bind_raise _ _ _ E)). }
  assert (E2 : forall m, _feature_evaluation self fpl m g = (Raise (ValueError msg), g)).
  { intros m; unfold _feature_evaluation. now rewrite (bind_raise _ _ _ E1). }
  assert (E3 : forall m n, episodes self fpl m (S n) g = (Raise (ValueError msg), g)).
  { intros m n; cbn [episodes]. now rewrite (bind_raise _ _ _ (E2 m)). }
  exists msg; repeat split; auto.
  intros ms fl w u g1 m Hm Hseed Hload Hproc Hn.
  rewrite apply_run, (statistics_on_features _ _ _ _ Hm Hseed Hload Hproc).
  destruct (n_iter self) as [|n]; [lia|]. now rewrite E3.
Qed.

Lemma not_enumerated self :
  str_in (method self) enumerated_methods = false ->
  forall name, In name enumerated_methods -> (method self =? name)%string = false.
Proof.
  unfold str_in; intros H name Hin.
  destruct (method self =? name)%string eqn:E; [|reflexivity].
  rewrite <- H. symmetry. apply existsb_exists. eauto.
Qed.

(** C8: with a method outside the enumerated set, [_load_model] raises
    [ValueError('Unknown method')] (the specification's
    [UnknownMethodError]) in every state; [apply], which loads the model
    right after seeding, raises it without looking at the features, without
    an episode (the state of the process is the one the seeding left) and
    without writing. *)
Theorem unknown_method_raises self ms :
  str_in (method self) enumerated_methods = false ->
  (forall g, _load_model self ms g = (Raise (ValueError "Unknown method"), g)) /\
  (forall fl w,
     apply nonzero self ms fl w
     = match set_and_print_random_seed (random_seed self) true (checkpoint_dir self)
               (proc w) with
       | (Ok _, g1) =>
           (Raise (ValueError "Unknown method"),
            {| proc := g1; results_txt := results_txt w |})
       | (Raise e, g1) => (Raise e, {| proc := g1; results_txt := results_txt w |})
       end).
Proof.
  intros H.
  assert (Hload : forall g, _load_model self ms g = (Raise (ValueError "Unknown method"), g)).
  { intros g. unfold _load_model, str_in, existsb.
    rewrite !(not_enumerated _ H) by (simpl; tauto).
    reflexivity. }
  split; [exact Hload|].
  intros fl w. rewrite apply_run. unfold statistics.
  unfold bind at 1. unfold lift_rt at 1.
  destruct (set_and_print_random_seed _ _ _ (proc w)) as [[u|e] g1]; [|reflexivity].
  set (w1 := {| proc := g1; results_txt := results_txt w |}).
  rewrite (bind_raise _ _ w1 (lift_rt_run (_load_model self ms) w1 (Hload g1))).
  reflexivity.
Qed.

Lemma load_model_baseline self ms1 ms2 :
  str_in (method self) ["baseline"; "baseline++"] = true ->
  _load_model self ms1 = _load_model self ms2.
Proof. intros H; unfold _load_model. rewrite H. reflexivity. Qed.

(** C10: for the methods 'baseline' and 'baseline++', [_load_model] does
    not depend on the model state at all, and the whole run (value, final
    state of the process, results file) depends on it through ['epoch']
    only; the entry written carries that epoch. *)
Theorem baseline_ignores_trained_state self ms1 ms2 :
  str_in (method self) ["baseline"; "baseline++"] = true ->
  (forall g, _load_model self ms1 g = _load_model self ms2 g) /\
  (epoch ms1 = epoch ms2 ->
   forall fl w, apply nonzero self ms1 fl w = apply nonzero self ms2 fl w) /\
  (forall fl w acc_mean w',
     apply nonzero self ms1 fl w = (Ok acc_mean, w') ->
     exists e, results_txt w' = results_txt w ++ [e] /\ from_epoch e = epoch ms1).
Proof.
  intros H. pose proof (load_model_baseline self ms1 ms2 H) as Hl.
  repeat split.
  - intros g; now rewrite Hl.
  - intros He fl w. unfold apply, statistics. rewrite Hl, He. reflexivity.
  - intros fl w acc_mean w' Ha.
    destruct (apply_ok_inv _ _ _ _ Ha) as (s & w1 & _ & E).
    eexists; split; [exact E|reflexivity].
Qed.

End ApplyFacts.

Section HalfWidth.

Variable A : Type.
Variable nonzero : A -> bool.
Context {RT : Runtime} {CO : Collaborators A RT}.
Implicit Types (self : MethodEvaluation) (ms : model_state state_dict)
               (w : world rt_state) (fpl : pool A).

Lemma confidence_interval_antitone (self self' : MethodEvaluation) (std : R) :
  0 < n_iter self -> n_iter self <= n_iter self' -> (0 <= std)%R ->
  (_confidence_interval self' std <= _confidence_interval self std)%R.
Proof.
  intros Hpos Hle Hstd. unfold _confidence_interval, Rdiv.
  apply Rmult_le_compat_l; [lra|].
  apply Rinv_le_contravar.
  - apply sqrt_lt_R0, lt_0_INR, Hpos.
  - apply sqrt_le_1_alt, le_INR, Hle.
Qed.

Lemma map_result_length {X Y} (f : X -> result Y) (l : list X) : forall ys,
  map_result f l = Ok ys -> length ys = length l.
Proof.
  induction l as [|x l IH]; intros ys H; simpl in H.
  - now inversion H.
  - destruct (f x) as [y|]; [|discriminate].
    destruct (map_result f l) as [ys'|]; [|discriminate].
    inversion H; subst; simpl. f_equal. now apply IH.
Qed.

(** What an episode that returns went through, lines 175-184. *)
Lemma feature_evaluation_inv self fpl (m : nn_module) g acc m' g' :
  _feature_evaluation self fpl m g = (Ok (acc, m'), g') ->
  exists z g1 scores pred,
    _set_classification_task self fpl g = (Ok z, g1) /\
    (if adaptation self then set_forward_adaptation else set_forward)
      (set_n_query m (n_query self)) z g1 = (Ok (scores, m'), g') /\
    map_result argmax scores = Ok pred /\
    accuracy self pred = Ok acc.
Proof.
  unfold _feature_evaluation; intros H.
  apply bind_inv_ok in H as (z & g1 & Hz & H).
  apply bind_inv_ok in H as ([scores m1] & g2 & Hf & H).
  apply bind_inv_ok in H as (pred & g3 & Hp & H).
  apply bind_inv_ok in H as (acc' & g4 & Ha & H).
  unfold ret in H; unfold lift_result in Hp, Ha.
  inversion H; subst; clear H. inversion Hp; subst; clear Hp.
  inversion Ha; subst; clear Ha.
  exists z, g1, scores, pred; repeat split; auto.
  destruct (adaptation self); exact Hf.
Qed.

Lemma after_episodes_length self fpl (m : nn_module) g : forall k accs mk gk,
  after_episodes self fpl m k g = (Ok (accs, mk), gk) -> length accs = k.
Proof.
  induction k as [|k IH]; intros accs mk gk H; simpl in H.
  - unfold ret in H; now inversion H.
  - apply bind_inv_ok in H as ([accs0 m0] & g0 & H0 & H).
    apply bind_inv_ok in H as ([acc m1] & g1 & _ & H).
    unfold ret in H; inversion H; subst.
    rewrite length_app, (IH _ _ _ H0); simpl; lia.
Qed.

(** Entry [k] of [acc_all] is what the episode of iteration [k] returned. *)
Lemma episodes_nth self fpl n (m : nn_module) g acc_all g' :
  episodes self fpl m n g = (Ok acc_all, g') ->
  forall k, k < n ->
    exists accs mk gk m' gk',
      after_episodes self fpl m k g = (Ok (accs, mk), gk) /\
      _feature_evaluation self fpl mk gk = (Ok (nth k acc_all 0%Q, m'), gk').
Proof.
  intros H k Hk.
  edestruct episodes_all_return
    as (accs & mk & gk & acc & m' & gk' & Ha & He); [exact H|exact Hk|].
  exists accs, mk, gk, m', gk'; split; [exact Ha|].
  assert (Ha' : after_episodes self fpl m (S k) g = (Ok (accs ++ [acc], m'), gk')).
  { simpl. rewrite (bind_ok _ _ _ Ha). now rewrite (bind_ok _ _ _ He). }
  pose proof Ha' as E. eapply episodes_after with (r := n - S k) in E.
  replace (S k + (n - S k)) with n in E by lia.
  rewrite H in E.
  destruct (episodes self fpl m' (n - S k) gk') as [[rest|e] g'']; [|discriminate].
  inversion E; subst.
  pose proof Ha as Hl. apply after_episodes_length in Hl.
  rewrite <- app_assoc, app_nth2 by lia.
  rewrite Hl, Nat.sub_diag. exact He.
Qed.

(** The pieces of a run on the feature path that returns: the seeding, the
    model, the pool and the loop, each of which returned. *)
Lemma statistics_trace self ms fl w acc_mean acc_std w1 :
  str_in (method self) ["maml"; "maml_approx"] = false ->
  statistics nonzero self ms fl w = (Ok (acc_mean, acc_std), w1) ->
  exists fl' fpl u g1 m g acc_all,
    fl = Some fl' /\ _process_features nonzero fl' = Ok fpl /\
    set_and_print_random_seed (random_seed self) true (checkpoint_dir self) (proc w)
      = (Ok u, g1) /\
    _load_model self ms g1 = (Ok m, g) /\
    episodes self fpl m (n_iter self) g = (Ok acc_all, proc w1).
Proof.
  intros Hm H. unfold statistics in H.
  apply bind_inv_ok in H as (u & w2 & Hseed & H).
  apply bind_inv_ok in H as (m & w3 & Hload & H).
  rewrite Hm in H.
  apply bind_inv_ok in H as (fpl & w4 & Hp & H).
  apply bind_inv_ok in H as (accs & w5 & He & H).
  unfold ret in H; inversion H; subst; clear H.
  unfold lift_result in Hp. destruct fl as [fl'|]; [|discriminate].
  inversion Hp; subst; clear Hp.
  unfold lift_rt in Hseed, Hload, He.
  destruct (set_and_print_random_seed _ _ _ (proc w)) as [r1 g1] eqn:E1.
  inversion Hseed; subst; clear Hseed. simpl in Hload.
  destruct (_load_model self ms g1) as [r2 g2] eqn:E2.
  inversion Hload; subst; clear Hload. simpl in He.
  destruct (episodes self fpl m (n_iter self) g2) as [r3 g3] eqn:E3.
  inversion He; subst; clear He.
  exists fl', fpl, u, g1, m, g2, accs; simpl; auto.
Qed.

(** C4: for a positive [n_iter], [_confidence_interval] is
    [1.96 * std / sqrt n_iter]; a run on the feature path whose [n_iter]
    episodes returned the accuracies [acc_all], the classifier scoring every
    one of a positive number of queries, returns their mean and appends the
    entry whose half-width is [1.96 * std / sqrt n_iter] for [std] the
    population standard deviation of [acc_all] (it is not negative and its
    square is the mean squared deviation from the mean), entry [k] of
    [acc_all] being the percentage of right predictions that the episode of
    iteration [k] returned; every run on the feature path that returns is
    made of such pieces; and for a fixed [std >= 0] the half-width does not
    grow when [n_iter] grows. *)
Theorem confidence_interval_halfwidth (self : MethodEvaluation) :
  0 < n_iter self ->
  (forall std,
     _confidence_interval self std = (1.96 * std / sqrt (INR (n_iter self)))%R) /\
  (forall ms fl w u g1 m g fpl (acc_all : list Q) g',
     str_in (method self) ["maml"; "maml_approx"] = false ->
     0 < test_n_way self * n_query self ->
     set_and_print_random_seed (random_seed self) true (checkpoint_dir self) (proc w)
       = (Ok u, g1) ->
     _load_model self ms g1 = (Ok m, g) ->
     _process_features nonzero fl = Ok fpl ->
     episodes self fpl m (n_iter self) g = (Ok acc_all, g') ->
     scores_every_query self fpl m g (n_iter self) ->
     let xs := map Q2R acc_all in
     apply nonzero self ms (Some fl) w
     = (Ok (np_mean xs),
        {| proc := g';
           results_txt :=
             results_txt w ++
             [{| setting := exp_setting self (split_str self);
                 from_epoch := epoch ms;
                 acc_str := (n_iter self, np_mean xs,
                             (1.96 * np_std xs / sqrt (INR (n_iter self)))%R) |}] |}) /\
     length acc_all = n_iter self /\
     (forall k, k < n_iter self ->
        exists accs mk gk m' gk' pred,
          after_episodes self fpl m k g = (Ok (accs, mk), gk) /\
          _feature_evaluation self fpl mk gk = (Ok (nth k acc_all 0%Q, m'), gk') /\
          length pred = test_n_way self * n_query self /\
          nth k acc_all 0%Q = percent_matching (n_query self) pred) /\
     (0 <= np_std xs)%R /\
     (Rsqr (np_std xs)
      = fold_right Rplus 0 (map (fun x => Rsqr (x - np_mean xs)) xs)
        / INR (n_iter self))%R) /\
  (forall ms fl w acc_mean w',
     str_in (method self) ["maml"; "maml_approx"] = false ->
     0 < test_n_way self * n_query self ->
     apply nonzero self ms fl w = (Ok acc_mean, w') ->
     exists fl' fpl u g1 m g (acc_all : list Q),
       fl = Some fl' /\ _process_features nonzero fl' = Ok fpl /\
       set_and_print_random_seed (random_seed self) true (checkpoint_dir self) (proc w)
         = (Ok u, g1) /\
       _load_model self ms g1 = (Ok m, g) /\
       episodes self fpl m (n_iter self) g = (Ok acc_all, proc w')) /\
  (forall self' std,
     n_iter self <= n_iter self' -> (0 <= std)%R ->
     (_confidence_interval self' std <= _confidence_interval self std)%R).
Proof.
  intros Hpos; split; [reflexivity|split; [|split]].
  - intros ms fl w u g1 m g fpl acc_all g' Hm Hq Hseed Hload Hproc He Hsc. cbv zeta.
    pose proof He as Hlen. apply episodes_length in Hlen.
    assert (Hne : map Q2R acc_all <> []).
    { destruct acc_all; [simpl in Hlen; lia|discriminate]. }
    destruct (np_std_population Hne) as [H0 Hsq].
    rewrite length_map, Hlen in Hsq.
    repeat split; auto.
    + rewrite apply_run,
        (statistics_on_features nonzero self ms fl w Hm Hseed Hload Hproc), He.
      reflexivity.
    + intros k Hk.
      edestruct episodes_nth as (accs & mk & gk & m' & gk' & Ha & Hf);
        [exact He|exact Hk|].
      pose proof Hf as Hi. apply feature_evaluation_inv in Hi.
      destruct Hi as (z & g2 & scores & pred & Hz & Hfw & Hp & Hacc).
      assert (Hpl : length pred = test_n_way self * n_query self).
      { pose proof Hp as Hl. apply map_result_length in Hl. rewrite Hl.
        eapply Hsc; eauto. }
      exists accs, mk, gk, m', gk', pred; repeat split; auto.
      rewrite (accuracy_percent self pred Hpl) in Hacc. now inversion Hacc.
  - intros ms fl w acc_mean w' Hm _ Ha.
    rewrite apply_run in Ha.
    destruct (statistics nonzero self ms fl w) as [[[a s]|e] w1] eqn:Hs; [|discriminate].
    inversion Ha; subst; clear Ha. simpl.
    eapply statistics_trace; eauto.
  - intros self' std Hle Hstd. now apply confidence_interval_antitone.
Qed.

End HalfWidth.

(** ** Concrete runs *)


(** The episode of one-entry vectors, computed. *)
Example dim1_episode :
  _set_classification_task (RT := rotating) baseline_2way dim1_pool 7
  = (Ok [[Scalar 4; Scalar 5; Scalar 6]; [Scalar 2; Scalar 3; Scalar 1]]%Z, 8)
  /\ shape [[Scalar 4; Scalar 5; Scalar 6]; [Scalar 2; Scalar 3; Scalar 1]]%Z = [2; 3].
Proof. split; reflexivity. Qed.

Lemma set_classification_task_dim1_witness :
  exists z g',
    _set_classification_task (RT := rotating) baseline_2way dim1_pool 7 = (Ok z, g') /\
    shape z = [test_n_way baseline_2way; n_shot baseline_2way + n_query baseline_2way] /\
    shape z <> [test_n_way baseline_2way; n_shot baseline_2way + n_query baseline_2way; 1].
Proof.
  apply (@set_classification_task_dim1 Z rotating baseline_2way dim1_pool 7).
  - unfold enough; simpl. repeat split; try lia;
      repeat constructor; simpl; intuition discriminate.
  - vm_compute; lia.
  - vm_compute; lia.
  - reflexivity.
Defined.

(** The same step on vectors of two entries: three axes. *)
Example set_classification_task_dim2 :
  exists z g', _set_classification_task (RT := rotating) baseline_2way abc_pool 7 = (Ok z, g')
               /\ shape z = [2; 3; 2].
Proof.
  assert (He : enough (A := Z) baseline_2way abc_pool 2).
  { unfold enough; simpl. repeat split; try lia;
      repeat constructor; simpl; intuition discriminate. }
  destruct (set_classification_task_spec (RT := rotating) 7 He)
    as (sel & z0 & g0 & z & g' & _ & E & Hs & _); simpl; try lia; auto.
  exists z, g'; auto.
Qed.

Lemma feature_evaluation_is_percentage_witness :
  _feature_evaluation (CO := always_class0) baseline_2way abc_pool (2, 0) 7
    = (Ok (percent_matching (n_query baseline_2way) [0; 0; 0; 0], (2, 2)), 8)
  /\ (forall i, i < length [0; 0; 0; 0] ->
        nth i (np_repeat_range (test_n_way baseline_2way) (n_query baseline_2way)) 0
        = i / n_query baseline_2way).
Proof.
  apply (@feature_evaluation_is_percentage Z rotating always_class0
           baseline_2way abc_pool (2, 0) 7
           [[Vector [2; 3]; Vector [2; 4]; Vector [2; 1]];
            [Vector [3; 2]; Vector [3; 3]; Vector [3; 4]]]%Z
           8 (class0_scores (2, 2)) (2, 2) 8 [0; 0; 0; 0]).
  - vm_compute; lia.
  - reflexivity.
  - reflexivity.
  - reflexivity.
  - reflexivity.
Defined.

(** All four queries are answered 0 and two of them are of class 0: 50 %. *)
Example half_right : (percent_matching 2 [0; 0; 0; 0]%nat == 50)%Q.
Proof. reflexivity. Qed.

Lemma random_swap_numpy_frame_witness :
  homogeneous two_by_three = true /\
  ((forall z' g',
      random_swap_numpy (RT := rotating) two_by_three 3 2 7 = (Ok z', g') ->
      shape z' = shape two_by_three /\
      length z' = length two_by_three /\
      map (skipn 2) z' = map (skipn 2) two_by_three /\
      (forall c i, 2 <= i -> get_cell z' c i = get_cell two_by_three c i) /\
      Permutation (concat (support 2 z')) (concat (support 2 two_by_three)))
   /\
   (3 = 0 \/
    (2 <= length two_by_three /\ 0 < 2 /\
     Forall (fun row => 2 <= length row) two_by_three) ->
    exists z' g', random_swap_numpy (RT := rotating) two_by_three 3 2 7 = (Ok z', g'))).
Proof.
  split; [reflexivity|].
  apply (@random_swap_numpy_frame Z rotating two_by_three 3 2 7).
  reflexivity.
Defined.

Example three_swaps :
  random_swap_numpy (RT := rotating) two_by_three 3 2 7
  = (Ok [[Vector [1; 1]; Vector [2; 1]; Vector [1; 3]];
         [Vector [1; 2]; Vector [2; 2]; Vector [2; 3]]]%Z, 14).
Proof. reflexivity. Qed.

Lemma too_few_classes_raises_witness :
  length (keys abc_pool) < test_n_way (step "baseline" 4 3 0) /\
  exists msg,
    _set_classification_task (RT := rotating) (step "baseline" 4 3 0) abc_pool 7
      = (Raise (ValueError msg), 7) /\
    apply (CO := always_class0) Z_nonzero (step "baseline" 4 3 0) checkpoint
          (Some abc_features) fresh
      = (Raise (ValueError msg), {| proc := 7; results_txt := [] |}).
Proof.
  assert (H : length (keys abc_pool) < test_n_way (step "baseline" 4 3 0))
    by (vm_compute; lia).
  split; [exact H|].
  destruct (@too_few_classes_raises Z Z_nonzero rotating always_class0
              (step "baseline" 4 3 0) abc_pool H 7)
    as (msg & _ & E1 & _ & _ & E2).
  exists msg; split; [exact E1|].
  apply (E2 checkpoint abc_features fresh tt 7 (4, 0));
    try reflexivity; vm_compute; lia.
Defined.

Lemma unknown_method_raises_witness :
  str_in (method (step "resnet" 2 3 0)) enumerated_methods = false /\
  (forall g, _load_model (CO := always_class0) (step "resnet" 2 3 0) checkpoint g
             = (Raise (ValueError "Unknown method"), g)) /\
  apply (CO := always_class0) Z_nonzero (step "resnet" 2 3 0) checkpoint None fresh
  = (Raise (ValueError "Unknown method"), {| proc := 7; results_txt := [] |}).
Proof.
  assert (H : str_in (method (step "resnet" 2 3 0)) enumerated_methods = false)
    by reflexivity.
  split; [exact H|].
  destruct (@unknown_method_raises Z Z_nonzero rotating always_class0
              (step "resnet" 2 3 0) checkpoint H) as [E1 E2].
  split; [exact E1|]. rewrite E2. reflexivity.
Defined.

Lemma baseline_ignores_trained_state_witness :
  str_in (method baseline_2way) ["baseline"; "baseline++"] = true /\
  (forall fl w,
     apply (CO := always_class0) Z_nonzero baseline_2way checkpoint fl w
     = apply (CO := always_class0) Z_nonzero baseline_2way other_checkpoint fl w).
Proof.
  assert (H : str_in (method baseline_2way) ["baseline"; "baseline++"] = true)
    by reflexivity.
  split; [exact H|].
  apply (proj1 (proj2 (@baseline_ignores_trained_state Z Z_nonzero rotating always_class0
                         baseline_2way checkpoint other_checkpoint H))).
  reflexivity.
Defined.

(** A method that loads the trained parameters does depend on them. *)
Example protonet_reads_trained_state :
  _load_model (CO := always_class0) (step "protonet" 2 3 0) checkpoint 7
  <> _load_model (CO := always_class0) (step "protonet" 2 3 0) other_checkpoint 7.
Proof. vm_compute. discriminate. Qed.

(** The forward pass of the second episode raises: the run raises and the
    results file stays empty. *)
Example second_episode_raises :
  after_episodes (CO := flaky_class0) baseline_2way abc_pool (2, 0) 1 7
    = (Ok ([200 # 4]%Q, (2, 2)), 8) /\
  apply (CO := flaky_class0) Z_nonzero baseline_2way checkpoint (Some abc_features) fresh
    = (Raise (ExternalError "CUDA out of memory"), {| proc := 5; results_txt := [] |}).
Proof. split; reflexivity. Qed.


(** Section 8 of the specification: with [n_swaps = 0] the injector returns
    its input. *)
Example no_swap_is_identity (z : tensor Z) (n_shot : nat) (g : nat) :
  random_swap_numpy (RT := rotating) z 0 n_shot g = (Ok z, g).
Proof. reflexivity. Qed.

(** Section 8 of the specification: a classifier that always answers class 0,
    5-way with 15 queries per class, scores 100/5 = 20. *)
Example always_class0_scores_20 :
  exists acc,
    accuracy (__init__ (CO := always_class0) "CUB" "Conv4" "baseline" 5 5 5 15 false
                       "novel" (-1)%Z 50 false None 0)
             (repeat 0 75) = Ok acc
    /\ (acc == 20)%Q.
Proof. eexists; split; [vm_compute; reflexivity|reflexivity]. Qed.

Lemma sum_repeat (x : R) (n : nat) :
  fold_right Rplus 0%R (repeat x n) = (INR n * x)%R.
Proof.
  induction n as [|n IH]; [simpl; ring|].
  cbn [repeat fold_right]. rewrite IH, S_INR. ring.
Qed.

Lemma np_mean_repeat (x : R) (n : nat) : 0 < n -> np_mean (repeat x n) = x.
Proof.
  intros Hn; unfold np_mean. rewrite sum_repeat, repeat_length.
  field. apply not_0_INR; lia.
Qed.

(** Equal accuracies have standard deviation 0. *)
Lemma np_std_repeat (x : R) (n : nat) : 0 < n -> np_std (repeat x n) = 0%R.
Proof.
  intros Hn; unfold np_std. rewrite (np_mean_repeat x Hn), map_repeat.
  rewrite (np_mean_repeat _ Hn). unfold Rsqr.
  replace ((x - x) * (x - x))%R with 0%R by ring. apply sqrt_0.
Qed.

(** A whole run of the baseline step with the classifier that answers 0:
    three episodes of accuracy 50, so mean 50 and half-width 0, written once
    with the epoch of the checkpoint. *)
Example baseline_run :
  exists acc_mean half_width,
    apply (CO := always_class0) Z_nonzero baseline_2way checkpoint (Some abc_features) fresh
    = (Ok acc_mean,
       {| proc := 14;
          results_txt :=
            [{| setting := "CUB-novel-Conv4-baseline 1shot 2way_test 0swaps";
                from_epoch := 5;
                acc_str := (3, acc_mean, half_width) |}] |})
    /\ acc_mean = 50%R /\ half_width = 0%R.
Proof.
  assert (Hstat : statistics (CO := always_class0) Z_nonzero baseline_2way checkpoint
                    (Some abc_features) fresh
                  = (Ok (np_mean (repeat (Q2R (200 # 4)) 3), np_std (repeat (Q2R (200 # 4)) 3)),
                     {| proc := 14; results_txt := [] |})).
  { rewrite (@statistics_on_features Z Z_nonzero rotating always_class0
               baseline_2way checkpoint abc_features fresh tt 7 (2, 0) 7 abc_pool);
      reflexivity. }
  assert (Hq : Q2R (200 # 4) = 50%R) by (unfold Q2R; simpl; lra).
  exists 50%R, 0%R. rewrite apply_run, Hstat.
  rewrite np_mean_repeat, np_std_repeat, Hq by lia.
  repeat split. unfold entry_of, _confidence_interval; simpl.
  replace (1.96 * 0 / sqrt (1 + 1 + 1))%R with 0%R by (unfold Rdiv; ring).
  reflexivity.
Qed.

(** Four accuracies 100, 50, 100, 50: mean 75, standard deviation 25. *)
Example mean_and_std_of_four :
  np_mean [100; 50; 100; 50]%R = 75%R /\ np_std [100; 50; 100; 50]%R = 25%R.
Proof.
  assert (Hm : np_mean [100; 50; 100; 50]%R = 75%R) by (unfold np_mean; simpl; lra).
  split; [exact Hm|].
  unfold np_std. rewrite Hm.
  replace (np_mean (map (fun x => Rsqr (x - 75)) [100; 50; 100; 50]))%R with (25 * 25)%R
    by (unfold np_mean, Rsqr; simpl; lra).
  apply sqrt_square; lra.
Qed.

(** A run of four episodes with the classifier that is right in the even
    states of the process: accuracies 100, 50, 100, 50, so the entry carries
    the mean 75 and the half-width 1.96 * 25 / sqrt 4 = 24.5. *)
Lemma confidence_interval_halfwidth_witness :
  0 < n_iter four_episodes /\
  str_in (method four_episodes) ["maml"; "maml_approx"] = false /\
  0 < test_n_way four_episodes * n_query four_episodes /\
  episodes (CO := even_oracle) four_episodes abc_pool (2, 0) (n_iter four_episodes) 7
    = (Ok [400 # 4; 200 # 4; 400 # 4; 200 # 4]%Q, 3) /\
  scores_every_query (CO := even_oracle) four_episodes abc_pool (2, 0) 7
                     (n_iter four_episodes) /\
  exists acc_mean half_width,
    apply (CO := even_oracle) Z_nonzero four_episodes checkpoint (Some abc_features) fresh
    = (Ok acc_mean,
       {| proc := 3;
          results_txt :=
            [{| setting := "CUB-novel-Conv4-baseline 1shot 2way_test 0swaps";
                from_epoch := 5;
                acc_str := (4, acc_mean, half_width) |}] |})
    /\ acc_mean = 75%R /\ half_width = 24.5%R.
Proof.
  assert (H1 : 0 < n_iter four_episodes) by (vm_compute; lia).
  assert (H2 : str_in (method four_episodes) ["maml"; "maml_approx"] = false)
    by reflexivity.
  assert (H3 : 0 < test_n_way four_episodes * n_query four_episodes)
    by (vm_compute; lia).
  assert (H4 : episodes (CO := even_oracle) four_episodes abc_pool (2, 0)
                 (n_iter four_episodes) 7
               = (Ok [400 # 4; 200 # 4; 400 # 4; 200 # 4]%Q, 3)) by reflexivity.
  assert (H5 : scores_every_query (CO := even_oracle) four_episodes abc_pool (2, 0) 7
                 (n_iter four_episodes)).
  { intros k accs mk gk z g1 scores m' g2 Hk Ha Hz Hf.
    destruct k as [|[|[|[|k]]]]; [| | | |vm_compute in Hk; lia];
      vm_compute in Ha; inversion Ha; subst;
      vm_compute in Hz; inversion Hz; subst;
      vm_compute in Hf; inversion Hf; reflexivity. }
  repeat (split; [assumption|]).
  pose proof (proj1 (proj2 (@confidence_interval_halfwidth Z Z_nonzero rotating even_oracle
                              four_episodes H1))
                checkpoint abc_features fresh tt 7 (2, 0) 7 abc_pool
                [400 # 4; 200 # 4; 400 # 4; 200 # 4]%Q 3
                H2 H3 eq_refl eq_refl eq_refl H4 H5) as E.
  cbv zeta in E. destruct E as (E & _).
  assert (Hq4 : Q2R (400 # 4) = 100%R) by (unfold Q2R; simpl; lra).
  assert (Hq2 : Q2R (200 # 4) = 50%R) by (unfold Q2R; simpl; lra).
  assert (Hs : sqrt (INR (n_iter four_episodes)) = 2%R).
  { replace (INR (n_iter four_episodes)) with (2 * 2)%R by (simpl; lra).
    apply sqrt_square; lra. }
  cbn [map] in E. rewrite Hq4, Hq2, Hs in E.
  destruct mean_and_std_of_four as [Hmean Hstd]. rewrite Hmean, Hstd in E.
  exists 75%R, 24.5%R. rewrite E.
  replace (1.96 * 25 / 2)%R with 24.5%R by lra.
  repeat split.
Defined.

(** * Further properties of the code *)

(** ** The FeaturePool builder: what the pool holds *)

Section FeaturePoolMore.

Variable A : Type.
Variable nonzero : A -> bool.
Implicit Types (d : pool A) (x : vector A).

Lemma lookup_missing d k :
  ~ In k (keys d) -> exists msg, lookup d k = Raise (KeyError msg).
Proof.
  induction d as [|[k0 v] d IH]; simpl; intros H; [eauto|].
  destruct (Z.eqb_spec k k0) as [->|Hne]; [tauto|]. apply IH; tauto.
Qed.

Lemma lookup_present d k vs :
  NoDup (keys d) -> In (k, vs) d -> lookup d k = Ok vs.
Proof.
  induction d as [|[k0 v] d IH]; simpl; intros Hnd Hin; [contradiction|].
  inversion Hnd as [|? ? Hnin Hnd']; subst.
  destruct Hin as [E|Hin].
  - inversion E; subst. now rewrite Z.eqb_refl.
  - destruct (Z.eqb_spec k k0) as [->|Hne]; [|now apply IH].
    exfalso; apply Hnin. apply in_map_iff. now exists (k0, vs).
Qed.

Lemma dict_append_lookup d : forall k x d',
  dict_append d k x = Ok d' ->
  forall k', lookup d' k'
             = if (k' =? k)%Z
               then match lookup d k with
                    | Ok vs => Ok (vs ++ [x])
                    | Raise e => Raise e
                    end
               else lookup d k'.
Proof.
  induction d as [|[k0 v] d IH]; intros k x d' H k'; simpl in H; [discriminate|].
  destruct (Z.eqb_spec k k0) as [->|Hne].
  - inversion H; subst; simpl. rewrite Z.eqb_refl.
    destruct (Z.eqb_spec k' k0); reflexivity.
  - destruct (dict_append d k x) as [d1|] eqn:E; [|discriminate].
    inversion H; subst; simpl. rewrite (IH _ _ _ E).
    destruct (Z.eqb_spec k k0); [contradiction|].
    destruct (Z.eqb_spec k' k0) as [->|]; [|reflexivity].
    destruct (Z.eqb_spec k0 k); [congruence|reflexivity].
Qed.

Lemma dict_append_ok d k x :
  In k (keys d) -> exists d', dict_append d k x = Ok d'.
Proof.
  induction d as [|[k0 v] d IH]; simpl; intros H; [contradiction|].
  destruct (Z.eqb_spec k k0) as [->|Hne]; [eauto|].
  destruct IH as [d' ->]; [destruct H; congruence|eauto].
Qed.

Lemma dict_append_instances d : forall k x d',
  dict_append d k x = Ok d' ->
  Permutation (instances d') ((k, x) :: instances d).
Proof.
  induction d as [|[k0 v] d IH]; intros k x d' H; simpl in H; [discriminate|].
  destruct (Z.eqb_spec k k0) as [->|Hne].
  - inversion H; subst. unfold instances; simpl.
    rewrite map_app, <- app_assoc. simpl. symmetry. apply Permutation_middle.
  - destruct (dict_append d k x) as [d1|] eqn:E; [|discriminate].
    inversion H; subst. unfold instances in *; simpl.
    rewrite (IH _ _ _ E). symmetry. apply Permutation_middle.
Qed.

Lemma group_by_label_ok labels : forall features d,
  length labels <= length features ->
  (forall l, In l labels -> In l (keys d)) ->
  exists d', group_by_label labels features d = Ok d'.
Proof.
  induction labels as [|l labels IH]; intros features d Hlen Hin; simpl; [eauto|].
  destruct features as [|f features]; [simpl in Hlen; lia|].
  destruct (dict_append_ok d l f) as [d1 E]; [apply Hin; now left|].
  rewrite E. apply IH; [simpl in Hlen; lia|].
  intros l' Hl'. rewrite (dict_append_keys _ _ _ E). apply Hin; now right.
Qed.

Lemma group_by_label_short labels : forall features d,
  length features < length labels ->
  (forall l, In l labels -> In l (keys d)) ->
  exists msg, group_by_label labels features d = Raise (IndexError msg).
Proof.
  induction labels as [|l labels IH]; intros features d Hlen Hin; simpl in *; [lia|].
  destruct features as [|f features]; [eauto|].
  destruct (dict_append_ok d l f) as [d1 E]; [apply Hin; now left|].
  rewrite E. apply IH; [simpl in Hlen; lia|].
  intros l' Hl'. rewrite (dict_append_keys _ _ _ E). apply Hin; now right.
Qed.

Lemma group_by_label_length labels : forall features d d',
  group_by_label labels features d = Ok d' -> length labels <= length features.
Proof.
  induction labels as [|l labels IH]; intros features d d' H; simpl in *; [lia|].
  destruct features as [|f features]; [discriminate|].
  destruct (dict_append d l f) as [d1|]; [|discriminate].
  apply IH in H. simpl; lia.
Qed.

Lemma group_by_label_lookup labels : forall features d d',
  group_by_label labels features d = Ok d' ->
  forall k vs, lookup d k = Ok vs ->
    lookup d' k
    = Ok (vs ++ map snd (filter (fun p => (fst p =? k)%Z) (combine labels features))).
Proof.
  induction labels as [|l labels IH]; intros features d d' H k vs Hk; simpl in H.
  - inversion H; subst; simpl. now rewrite app_nil_r.
  - destruct features as [|f features]; [discriminate|].
    destruct (dict_append d l f) as [d1|] eqn:E; [|discriminate].
    pose proof (dict_append_lookup _ _ _ E k) as Hk1.
    simpl. destruct (Z.eqb_spec k l) as [->|Hne].
    + rewrite Hk in Hk1. rewrite (IH _ _ _ H _ _ Hk1).
      rewrite Z.eqb_refl; simpl. now rewrite <- app_assoc.
    + rewrite Hk in Hk1. rewrite (IH _ _ _ H _ _ Hk1).
      destruct (Z.eqb_spec l k); [congruence|reflexivity].
Qed.

Lemma group_by_label_instances labels : forall features d d',
  group_by_label labels features d = Ok d' ->
  Permutation (instances d') (instances d ++ combine labels features).
Proof.
  induction labels as [|l labels IH]; intros features d d' H; simpl in H.
  - inversion H; subst; simpl. now rewrite app_nil_r.
  - destruct features as [|f features]; [discriminate|].
    destruct (dict_append d l f) as [d1|] eqn:E; [|discriminate].
    rewrite (IH _ _ _ H), (dict_append_instances _ _ _ E). simpl.
    apply Permutation_middle.
Qed.

Lemma empty_classes_lookup (u : list Z) k :
  In k u -> lookup (map (fun label => (label, @nil (vector A))) u) k = Ok [].
Proof.
  induction u as [|l u IH]; simpl; intros H; [contradiction|].
  destruct (Z.eqb_spec k l); [reflexivity|]. apply IH. destruct H; congruence.
Qed.

Lemma empty_classes_instances (u : list Z) :
  instances (map (fun label => (label, @nil (vector A))) u) = [].
Proof. induction u; simpl; auto. Qed.

Lemma sorted_NoDup (l : list Z) : StronglySorted Z.lt l -> NoDup l.
Proof.
  induction 1 as [|x l Hs IH Hall]; constructor; [|assumption].
  intros Hin. rewrite Forall_forall in Hall. specialize (Hall _ Hin). lia.
Qed.

Lemma combine_In_fst {X Y} (l : list X) : forall (l' : list Y) a,
  length l <= length l' -> In a l -> exists b, In (a, b) (combine l l').
Proof.
  induction l as [|x l IH]; intros l' a Hlen Hin; [contradiction|].
  destruct l' as [|y l']; [simpl in Hlen; lia|].
  destruct Hin as [->|Hin]; [exists y; now left|].
  destruct (IH l' a) as [b Hb]; [simpl in Hlen; lia|assumption|].
  exists b; now right.
Qed.

Lemma trim_reversed_returns rf : forall rl,
  Exists (fun row => any nonzero row = true) rf -> length rf <= length rl ->
  exists rf' rl', trim_reversed nonzero rf rl = Ok (rf', rl').
Proof.
  induction rf as [|row rf IH]; intros rl Hex Hlen; [inversion Hex|].
  simpl. destruct (any nonzero row) eqn:E; [eauto|].
  destruct rl as [|l rl]; [simpl in Hlen; lia|].
  apply IH; [|simpl in Hlen; lia].
  inversion Hex; subst; [congruence|assumption].
Qed.

Lemma trim_reversed_raises rf : forall rl e,
  trim_reversed nonzero rf rl = Raise e -> exists msg, e = IndexError msg.
Proof.
  induction rf as [|row rf IH]; intros rl e H; simpl in H.
  - inversion H; eauto.
  - destruct (any nonzero row); [discriminate|].
    destruct rl as [|l rl]; [inversion H; eauto|eauto].
Qed.

Lemma trim_reversed_padding zs : forall ds rf rl,
  length zs = length ds ->
  Forall (fun row => any nonzero row = false) zs ->
  trim_reversed nonzero (zs ++ rf) (ds ++ rl) = trim_reversed nonzero rf rl.
Proof.
  induction zs as [|z zs IH]; intros [|l ds] rf rl Hlen Hz; simpl in Hlen; try lia;
    [reflexivity|].
  inversion Hz as [|? ? Hrow Hrest]; subst. simpl. rewrite Hrow.
  apply IH; [lia|assumption].
Qed.

Lemma zero_rows_or_not (rows : list (vector A)) :
  Forall (fun row => any nonzero row = false) rows
  \/ Exists (fun row => any nonzero row = true) rows.
Proof.
  induction rows as [|row rows [IH|IH]]; [left; constructor| |right; now constructor 2].
  destruct (any nonzero row) eqn:E; [right; now constructor|left; now constructor].
Qed.

(** What a returned pool holds: class [k] holds the rows of the trimmed
    arrays whose label is [k], in the order of the input; a label that does
    not occur is not a key ([KeyError]); all in all the pool holds the
    (label, row) pairs of the trimmed arrays, each once. *)
Theorem process_features_groups features labels fpl :
  _process_features nonzero (features, labels) = Ok fpl ->
  exists features' labels',
    trim_trailing_zeros nonzero features labels = Ok (features', labels') /\
    (forall k, In k labels' ->
       lookup fpl k
       = Ok (map snd (filter (fun p => (fst p =? k)%Z) (combine labels' features')))) /\
    (forall k, ~ In k labels' -> exists msg, lookup fpl k = Raise (KeyError msg)) /\
    Permutation (instances fpl) (combine labels' features') /\
    length (instances fpl) = length labels'.
Proof.
  unfold _process_features.
  destruct (trim_trailing_zeros nonzero features labels) as [[f' l']|] eqn:E;
    [|discriminate].
  intros H. exists f', l'. split; [reflexivity|].
  pose proof (group_by_label_keys _ _ _ H) as Hk. rewrite keys_empty_lists in Hk.
  pose proof (group_by_label_instances _ _ _ H) as Hp.
  rewrite empty_classes_instances in Hp. simpl in Hp.
  repeat split.
  - intros k Hin.
    rewrite (group_by_label_lookup _ _ _ H k (vs := [])); [reflexivity|].
    apply empty_classes_lookup. now apply np_unique_In.
  - intros k Hnin. apply lookup_missing. rewrite Hk. now rewrite np_unique_In.
  - exact Hp.
  - rewrite (Permutation_length Hp), length_combine.
    apply group_by_label_length in H. lia.
Qed.

(** The pool is a well-formed dict of classes: its keys are distinct and no
    class is empty. *)
Theorem process_features_classes_nonempty features labels fpl :
  _process_features nonzero (features, labels) = Ok fpl ->
  NoDup (keys fpl) /\ Forall (fun kv => snd kv <> []) fpl.
Proof.
  intros H0. pose proof H0 as H. unfold _process_features in H.
  destruct (trim_trailing_zeros nonzero features labels) as [[f' l']|] eqn:E;
    [|discriminate].
  pose proof (group_by_label_keys _ _ _ H) as Hk. rewrite keys_empty_lists in Hk.
  assert (Hnd : NoDup (keys fpl)) by (rewrite Hk; apply sorted_NoDup, np_unique_sorted).
  split; [exact Hnd|].
  apply Forall_forall; intros [k vs] Hin; simpl.
  assert (Hkin : In k l').
  { apply np_unique_In. rewrite <- Hk. apply in_map_iff. now exists (k, vs). }
  assert (Hl : lookup fpl k = Ok vs) by (now apply lookup_present).
  rewrite (group_by_label_lookup _ _ _ H k (vs := [])) in Hl
    by (apply empty_classes_lookup; now apply np_unique_In).
  inversion Hl as [Hvs]; simpl.
  destruct (@combine_In_fst _ _ l' f' k) as [b Hb];
    [eapply group_by_label_length; eauto|assumption|].
  assert (Hf : In (k, b) (filter (fun p => (fst p =? k)%Z) (combine l' f'))).
  { apply filter_In; split; [assumption|]. simpl. apply Z.eqb_refl. }
  destruct (filter _ (combine l' f')); [contradiction|discriminate].
Qed.

(** On aligned arrays the builder returns exactly when some row is not all
    zero. *)
Theorem process_features_returns features labels :
  length features = length labels ->
  ((exists fpl, _process_features nonzero (features, labels) = Ok fpl)
   <-> Exists (fun row => any nonzero row = true) features).
Proof.
  intros Hlen; split.
  - intros [fpl H]. destruct (zero_rows_or_not features) as [Hz|He]; [|assumption].
    unfold _process_features, trim_trailing_zeros in H.
    destruct (trim_reversed_all_zero nonzero (rev labels) (Forall_rev Hz)) as [msg E].
    rewrite E in H. discriminate.
  - intros Hex. unfold _process_features.
    destruct (@trim_reversed_returns (rev features) (rev labels)) as (rf & rl & E).
    { apply Exists_rev. exact Hex. }
    { rewrite !length_rev. lia. }
    assert (Et : trim_trailing_zeros nonzero features labels = Ok (rev rf, rev rl))
      by (unfold trim_trailing_zeros; now rewrite E).
    rewrite Et.
    destruct (trim_trailing_zeros_spec _ _ _ Et) as (zs & ds & Hf & Hl & Hzd & _).
    apply group_by_label_ok.
    + apply (f_equal (@length _)) in Hf, Hl. rewrite length_app in Hf, Hl. lia.
    + intros l Hin. rewrite keys_empty_lists. now apply np_unique_In.
Qed.

(** More labels than rows: the builder raises [IndexError]. *)
Theorem process_features_more_labels features labels :
  length features < length labels ->
  exists msg, _process_features nonzero (features, labels) = Raise (IndexError msg).
Proof.
  intros Hlen. unfold _process_features.
  destruct (trim_trailing_zeros nonzero features labels) as [[f' l']|e] eqn:E.
  - destruct (trim_trailing_zeros_spec _ _ _ E) as (zs & ds & Hf & Hl & Hzd & _).
    apply group_by_label_short.
    + apply (f_equal (@length _)) in Hf, Hl. rewrite length_app in Hf, Hl. lia.
    + intros l Hin. rewrite keys_empty_lists. now apply np_unique_In.
  - unfold trim_trailing_zeros in E.
    destruct (trim_reversed nonzero (rev features) (rev labels)) as [[rf rl]|e'] eqn:E';
      [discriminate|].
    inversion E; subst. destruct (trim_reversed_raises _ _ E') as [msg ->]. eauto.
Qed.

(** Padding: rows of zeros appended to the arrays (with whatever labels) do
    not change what the builder returns or raises. *)
Theorem process_features_ignores_padding features labels zeros pad_labels :
  length zeros = length pad_labels ->
  Forall (fun row => any nonzero row = false) zeros ->
  _process_features nonzero (features ++ zeros, labels ++ pad_labels)
  = _process_features nonzero (features, labels).
Proof.
  intros Hlen Hz. unfold _process_features, trim_trailing_zeros.
  rewrite !rev_app_distr, trim_reversed_padding; [reflexivity| |].
  - now rewrite !length_rev.
  - now apply Forall_rev.
Qed.

End FeaturePoolMore.

Lemma process_features_groups_witness :
  exists features' labels',
    trim_trailing_zeros Z_nonzero [[1]; [2]; [3]; [0]]%Z [7; 5; 7; 9]%Z
      = Ok (features', labels') /\
    (forall k, In k labels' ->
       lookup [(5, [[2]]); (7, [[1]; [3]])]%Z k
       = Ok (map snd (filter (fun p => (fst p =? k)%Z) (combine labels' features')))) /\
    (forall k, ~ In k labels' ->
       exists msg, lookup [(5, [[2]]); (7, [[1]; [3]])]%Z k = Raise (KeyError msg)) /\
    Permutation (instances [(5, [[2]]); (7, [[1]; [3]])]%Z) (combine labels' features') /\
    length (instances [(5, [[2]]); (7, [[1]; [3]])]%Z) = length labels'.
Proof.
  apply (@process_features_groups Z Z_nonzero [[1]; [2]; [3]; [0]]%Z [7; 5; 7; 9]%Z).
  reflexivity.
Defined.

Lemma process_features_classes_nonempty_witness :
  NoDup (keys [(5, [[2]]); (7, [[1]; [3]])]%Z) /\
  Forall (fun kv : Z * list (vector Z) => snd kv <> []) [(5, [[2]]); (7, [[1]; [3]])]%Z.
Proof.
  apply (@process_features_classes_nonempty Z Z_nonzero
           [[1]; [2]; [3]; [0]]%Z [7; 5; 7; 9]%Z).
  reflexivity.
Defined.

Lemma process_features_returns_witness :
  length [[0]; [2]; [0]]%Z = length [7; 5; 7]%Z /\
  ((exists fpl, _process_features Z_nonzero ([[0]; [2]; [0]]%Z, [7; 5; 7]%Z) = Ok fpl)
   <-> Exists (fun row => any Z_nonzero row = true) [[0]; [2]; [0]]%Z).
Proof.
  split; [reflexivity|].
  apply (@process_features_returns Z Z_nonzero [[0]; [2]; [0]]%Z [7; 5; 7]%Z).
  reflexivity.
Defined.

Lemma process_features_more_labels_witness :
  length [[1]; [2]]%Z < length [7; 5; 7]%Z /\
  exists msg,
    _process_features Z_nonzero ([[1]; [2]]%Z, [7; 5; 7]%Z) = Raise (IndexError msg).
Proof.
  assert (H : length [[1]; [2]]%Z < length [7; 5; 7]%Z) by (simpl; lia).
  split; [exact H|].
  apply (@process_features_more_labels Z Z_nonzero [[1]; [2]]%Z [7; 5; 7]%Z H).
Defined.

Lemma process_features_ignores_padding_witness :
  length [[0]; [0]]%Z = length [1; 2]%Z /\
  Forall (fun row => any Z_nonzero row = false) [[0]; [0]]%Z /\
  _process_features Z_nonzero ([[1]; [2]]%Z ++ [[0]; [0]]%Z, [7; 5]%Z ++ [1; 2]%Z)
  = _process_features Z_nonzero ([[1]; [2]]%Z, [7; 5]%Z).
Proof.
  assert (Hz : Forall (fun row => any Z_nonzero row = false) [[0]; [0]]%Z)
    by (repeat constructor).
  split; [reflexivity|]. split; [exact Hz|].
  apply (@process_features_ignores_padding Z Z_nonzero
           [[1]; [2]]%Z [7; 5]%Z [[0]; [0]]%Z [1; 2]%Z eq_refl Hz).
Defined.

(** ** The episode sampler: classes that are too small *)

Lemma map_result_index_error {X Y} (f : X -> result Y) (l : list X) :
  (forall x, In x l ->
     (exists y, f x = Ok y) \/ (exists msg, f x = Raise (IndexError msg))) ->
  (exists x, In x l /\ exists msg, f x = Raise (IndexError msg)) ->
  exists msg, map_result f l = Raise (IndexError msg).
Proof.
  induction l as [|a l IH]; intros Hall (x & Hin & Hx); [contradiction|].
  simpl. destruct (Hall a (or_introl eq_refl)) as [[y Ey]|[msg Em]].
  - rewrite Ey. destruct IH as [msg E].
    + intros x' Hx'; apply Hall; now right.
    + destruct Hin as [->|Hin]; [destruct Hx as [msg Hx]; congruence|eauto].
    + rewrite E; eauto.
  - rewrite Em; eauto.
Qed.

Section SamplerMore.

Variable A : Type.
Context {RT : Runtime} {CO : Collaborators A RT}.
Implicit Types (fpl : pool A) (self : MethodEvaluation).

Lemma getitem_ok_or_index_error {X} (l : list X) i :
  (exists x, getitem l i = Ok x) \/ (exists msg, getitem l i = Raise (IndexError msg)).
Proof. unfold getitem; destruct (nth_error l i); eauto. Qed.

(** A class with fewer than [n_shot + n_query] vectors: [perm_ids[i]] runs
    out of range. *)
Lemma sample_instances_short self (vs : list (vector A)) g :
  length vs < n_shot self + n_query self ->
  exists msg,
    sample_instances self vs g
    = (Raise (IndexError msg), snd (permutation (length vs) g)).
Proof.
  intros Hk. unfold sample_instances.
  rewrite (bind_ok _ _ _ (np_random_permutation_eq (length vs) g)).
  set (p := fst (permutation (length vs) g)).
  assert (Hp : length p = length vs) by apply permutation_length.
  destruct (map_result_index_error
              (fun i => match getitem p i with
                        | Raise e => Raise e
                        | Ok j => match getitem vs j with
                                  | Raise e => Raise e
                                  | Ok v => Ok (np_squeeze v)
                                  end
                        end)
              (seq 0 (n_shot self + n_query self))) as [msg E].
  - intros i _. destruct (getitem_ok_or_index_error p i) as [[j ->]|[msg ->]]; [|eauto].
    destruct (getitem_ok_or_index_error vs j) as [[v ->]|[msg ->]]; eauto.
  - exists (length vs); split; [apply in_seq; lia|].
    unfold getitem at 1. rewrite (proj2 (nth_error_None p (length vs))) by lia. eauto.
  - exists msg. unfold lift_result. now rewrite E.
Qed.

(** When the pool has enough classes but every class has fewer than
    [n_shot + n_query] vectors, sampling an episode raises [IndexError], and
    so does the evaluation of the episode, before the classifier is
    called. *)
Theorem too_few_instances_raises self fpl g :
  0 < test_n_way self -> test_n_way self <= length (keys fpl) ->
  Forall (fun kv => length (snd kv) < n_shot self + n_query self) fpl ->
  exists msg g',
    _set_classification_task self fpl g = (Raise (IndexError msg), g') /\
    forall m, _feature_evaluation self fpl m g = (Raise (IndexError msg), g').
Proof.
  intros Hpos Hway Hall.
  pose proof (np_random_choice_ok (keys fpl) g 0%Z Hway) as Hc.
  set (g1 := snd (permutation (length (keys fpl)) g)) in *.
  pose proof (drawn_length g Hway) as Hlen.
  assert (Hin : forall i, In i (drawn (test_n_way self) (length (keys fpl)) g) ->
                          i < length (keys fpl)) by (intros i Hi; eapply drawn_lt; eauto).
  destruct (drawn (test_n_way self) (length (keys fpl)) g) as [|i0 ids] eqn:Ed;
    [simpl in Hlen; lia|].
  cbn [map] in Hc.
  destruct (lookup_In fpl (nth i0 (keys fpl) 0%Z)) as (vs & Hl & Hvs).
  { apply nth_In, Hin. now left. }
  rewrite Forall_forall in Hall. pose proof (Hall _ Hvs) as Hshort; simpl in Hshort.
  destruct (sample_instances_short self vs g1 Hshort) as [msg Es].
  exists msg, (snd (permutation (length vs) g1)).
  assert (E : _set_classification_task self fpl g
              = (Raise (IndexError msg), snd (permutation (length vs) g1))).
  { unfold _set_classification_task, sample_episode.
    apply bind_raise. rewrite (bind_ok _ _ _ Hc).
    apply bind_raise. cbn [mapM]. apply bind_raise.
    unfold bind, lift_result. rewrite Hl. exact Es. }
  split; [exact E|].
  intros m. unfold _feature_evaluation. now apply bind_raise.
Qed.

End SamplerMore.

Lemma too_few_instances_raises_witness :
  0 < test_n_way four_per_class /\
  test_n_way four_per_class <= length (keys dim1_pool) /\
  Forall (fun kv : Z * list (vector Z) =>
            length (snd kv) < n_shot four_per_class + n_query four_per_class) dim1_pool /\
  exists msg g',
    _set_classification_task (RT := rotating) four_per_class dim1_pool 7
      = (Raise (IndexError msg), g') /\
    forall m, _feature_evaluation (CO := always_class0) four_per_class dim1_pool m 7
              = (Raise (IndexError msg), g').
Proof.
  assert (H1 : 0 < test_n_way four_per_class) by (vm_compute; lia).
  assert (H2 : test_n_way four_per_class <= length (keys dim1_pool)) by (vm_compute; lia).
  assert (H3 : Forall (fun kv : Z * list (vector Z) =>
                         length (snd kv) < n_shot four_per_class + n_query four_per_class)
                      dim1_pool) by (repeat constructor; simpl; lia).
  split; [exact H1|]. split; [exact H2|]. split; [exact H3|].
  apply (@too_few_instances_raises Z rotating always_class0
           four_per_class dim1_pool 7 H1 H2 H3).
Defined.


(** ** Predictions and accuracy *)

Lemma argmax_from_spec (row : list Q) : forall (pre : list Q) best bv i,
  i = length pre -> best < i -> nth best pre 0%Q = bv ->
  (forall j, j < i -> (nth j pre 0 <= bv)%Q) ->
  (forall j, j < best -> (nth j pre 0 < bv)%Q) ->
  let r := argmax_from best bv i row in
  r < length (pre ++ row) /\
  (forall j, j < length (pre ++ row) -> (nth j (pre ++ row) 0 <= nth r (pre ++ row) 0)%Q) /\
  (forall j, j < r -> (nth j (pre ++ row) 0 < nth r (pre ++ row) 0)%Q).
Proof.
  induction row as [|x row IH]; intros pre best bv i Hi Hb Hbv Hle Hlt; cbn [argmax_from].
  - rewrite app_nil_r. cbv zeta. rewrite Hbv. subst i. repeat split; auto.
  - assert (Happ : pre ++ x :: row = (pre ++ [x]) ++ row) by now rewrite <- app_assoc.
    assert (Hlen : S i = length (pre ++ [x])) by (rewrite length_app; simpl; lia).
    assert (Hold : forall j, j < i -> nth j (pre ++ [x]) 0%Q = nth j pre 0%Q)
      by (intros j Hj; apply app_nth1; lia).
    assert (Hnew : nth i (pre ++ [x]) 0%Q = x).
    { rewrite app_nth2 by lia. subst i. now rewrite Nat.sub_diag. }
    rewrite Happ. destruct (Qle_bool x bv) eqn:E.
    + apply Qle_bool_iff in E.
      apply IH; auto.
      * now rewrite Hold.
      * intros j Hj. destruct (Nat.eq_dec j i) as [->|Hne].
        -- now rewrite Hnew.
        -- rewrite Hold by lia. apply Hle; lia.
      * intros j Hj. rewrite Hold by lia. now apply Hlt.
    + assert (Hx : (bv < x)%Q).
      { apply Qnot_le_lt. intros Hc. apply Qle_bool_iff in Hc. congruence. }
      apply IH; auto.
      * intros j Hj. destruct (Nat.eq_dec j i) as [->|Hne].
        -- rewrite Hnew. apply Qle_refl.
        -- rewrite Hold by lia. apply Qlt_le_weak.
           eapply Qle_lt_trans; [apply Hle; lia|exact Hx].
      * intros j Hj. rewrite Hold by lia.
        eapply Qle_lt_trans; [apply Hle; lia|exact Hx].
Qed.

Lemma argmax_spec (row : list Q) i :
  argmax row = Ok i ->
  i < length row /\
  (forall j, j < length row -> (nth j row 0 <= nth i row 0)%Q) /\
  (forall j, j < i -> (nth j row 0 < nth i row 0)%Q).
Proof.
  destruct row as [|x row]; simpl; intros H; [discriminate|].
  inversion H; subst; clear H.
  apply (argmax_from_spec row [x] (best := 0) (bv := x) (i := 1)); auto.
  - intros [|j] Hj; [apply Qle_refl|lia].
  - intros j Hj; lia.
Qed.

Lemma map_result_Forall2 {X Y} (f : X -> result Y) (l : list X) : forall ys,
  map_result f l = Ok ys -> Forall2 (fun x y => f x = Ok y) l ys.
Proof.
  induction l as [|x l IH]; intros ys H; simpl in H.
  - inversion H; constructor.
  - destruct (f x) as [y|] eqn:E; [|discriminate].
    destruct (map_result f l) as [ys'|]; [|discriminate].
    inversion H; subst. constructor; auto.
Qed.

(** Line 182: when [argmax(axis=1)] returns, there is one prediction per row
    of scores, and the prediction of a row is the first position of a largest
    score of the row (so it is a valid column index); it raises [ValueError]
    exactly when some row has no column. *)
Theorem predictions_are_first_maxima (scores : list (list Q)) :
  (forall pred, map_result argmax scores = Ok pred ->
     length pred = length scores /\
     Forall2 (fun row i =>
                i < length row /\
                (forall j, j < length row -> (nth j row 0 <= nth i row 0)%Q) /\
                (forall j, j < i -> (nth j row 0 < nth i row 0)%Q))
             scores pred) /\
  ((exists pred, map_result argmax scores = Ok pred) <-> ~ In [] scores) /\
  (forall e, map_result argmax scores = Raise e -> exists msg, e = ValueError msg).
Proof.
  repeat split.
  - apply map_result_Forall2 in H. symmetry. eapply Forall2_length; eauto.
  - apply map_result_Forall2 in H.
    eapply Forall2_impl; [|exact H]. intros row i Hi. now apply argmax_spec.
  - intros [pred H] Hin. apply map_result_Forall2 in H.
    induction H as [|row i scores' pred' Hr _ IH]; [contradiction|].
    destruct Hin as [->|Hin]; [discriminate|auto].
  - intros Hnin. induction scores as [|row scores' IH]; [exists []; reflexivity|].
    destruct row as [|x row]; [exfalso; apply Hnin; now left|].
    destruct IH as [pred E]; [intros Hin; apply Hnin; now right|].
    eexists. simpl. simpl in E. rewrite E. reflexivity.
  - induction scores as [|row scores' IH]; intros e H; simpl in H; [discriminate|].
    destruct row as [|x row]; [inversion H; eauto|]. simpl in H.
    destruct (map_result argmax scores') as [ys|e']; [discriminate|].
    inversion H; subst. now apply IH.
Qed.

Lemma filter_length_all {X} (f : X -> bool) (l : list X) :
  length (filter f l) = length l <-> (forall x, In x l -> f x = true).
Proof.
  induction l as [|x l IH]; simpl; [tauto|].
  pose proof (filter_length_le f l) as Hle.
  destruct (f x) eqn:E; simpl; split.
  - intros H y [<-|Hy]; [assumption|]. apply IH; [lia|assumption].
  - intros H. f_equal. apply IH. intros; apply H; now right.
  - intros H; lia.
  - intros H. specialize (H x (or_introl eq_refl)). congruence.
Qed.

Lemma filter_length_none {X} (f : X -> bool) (l : list X) :
  length (filter f l) = 0 <-> (forall x, In x l -> f x = false).
Proof.
  induction l as [|x l IH]; simpl; [tauto|].
  destruct (f x) eqn:E; simpl; split.
  - discriminate.
  - intros H. specialize (H x (or_introl eq_refl)). congruence.
  - intros H y [<-|Hy]; [assumption|]. now apply IH.
  - intros H. apply IH. intros; apply H; now right.
Qed.

Lemma percent_of_count (m n : nat) :
  0 < n -> m <= n ->
  let acc := (inject_Z (Z.of_nat m) / inject_Z (Z.of_nat n) * 100)%Q in
  (0 <= acc)%Q /\ (acc <= 100)%Q /\ ((acc == 100)%Q <-> m = n) /\ ((acc == 0)%Q <-> m = 0).
Proof.
  intros Hn Hm. cbv zeta.
  destruct (Z.of_nat n) as [|p|p] eqn:En; try lia.
  unfold Qle, Qeq, Qdiv, Qmult, Qinv, inject_Z; simpl.
  rewrite !Pos.mul_1_r, !Z.mul_1_r.
  repeat split; intros; try lia.
Qed.

Section AccuracyMore.

Variable A : Type.
Context {RT : Runtime} {CO : Collaborators A RT}.

(** Lines 183-184: with one prediction per query, the accuracy lies between
    0 and 100; it is 100 exactly when the predictions are the class indices
    in class order, each [n_query] times, and 0 exactly when no prediction
    is right. *)
Theorem accuracy_bounds (self : MethodEvaluation) (pred : list nat) :
  0 < test_n_way self * n_query self ->
  length pred = test_n_way self * n_query self ->
  exists acc,
    accuracy self pred = Ok acc /\
    (0 <= acc)%Q /\ (acc <= 100)%Q /\
    ((acc == 100)%Q <-> pred = np_repeat_range (test_n_way self) (n_query self)) /\
    ((acc == 0)%Q <-> forall i, i < length pred -> nth i pred 0 <> i / n_query self).
Proof.
  intros Hpos Hlen. exists (percent_matching (n_query self) pred).
  split; [now apply accuracy_percent|].
  unfold percent_matching.
  set (hit := fun i => nth i pred 0 =? i / n_query self).
  assert (Hseq : length (seq 0 (length pred)) = length pred) by apply length_seq.
  assert (Hm : matching (n_query self) pred <= length pred).
  { pose proof (filter_length_le hit (seq 0 (length pred))) as H.
    unfold matching; fold hit. lia. }
  assert (Hfull : matching (n_query self) pred = length pred
                  <-> forall i, In i (seq 0 (length pred)) -> hit i = true).
  { rewrite <- (filter_length_all hit). unfold matching; fold hit. lia. }
  assert (Hzero : matching (n_query self) pred = 0
                  <-> forall i, In i (seq 0 (length pred)) -> hit i = false).
  { rewrite <- (filter_length_none hit). unfold matching; fold hit. tauto. }
  destruct (percent_of_count (m := matching (n_query self) pred) (n := length pred))
    as (H0 & H100 & Hall & Hnone); [lia|exact Hm|].
  repeat split; auto.
  - intros H. pose proof (proj1 Hfull (proj1 Hall H)) as H'.
    rewrite np_repeat_range_div, <- Hlen.
    apply (nth_ext _ _ 0 ((fun i => i / n_query self) 0)).
    + now rewrite length_map, length_seq.
    + intros i Hi. rewrite (map_nth (fun i => i / n_query self)), seq_nth by lia.
      apply Nat.eqb_eq, H', in_seq; lia.
  - intros H. apply (proj2 Hall), (proj2 Hfull). intros i Hi. apply in_seq in Hi.
    unfold hit. apply Nat.eqb_eq.
    rewrite H at 1. rewrite np_repeat_range_div.
    rewrite (nth_indep _ 0 ((fun i => i / n_query self) 0))
      by (rewrite length_map, length_seq; lia).
    rewrite (map_nth (fun i => i / n_query self)), seq_nth by lia. reflexivity.
  - intros H i Hi. pose proof (proj1 Hzero (proj1 Hnone H)) as H'.
    apply Nat.eqb_neq, H', in_seq; lia.
  - intros H. apply (proj2 Hnone), (proj2 Hzero). intros i Hi. apply in_seq in Hi.
    apply Nat.eqb_neq, H; lia.
Qed.

End AccuracyMore.

Lemma accuracy_bounds_witness :
  0 < test_n_way baseline_2way * n_query baseline_2way /\
  exists acc,
    accuracy baseline_2way [0; 0; 1; 0] = Ok acc /\
    (0 <= acc)%Q /\ (acc <= 100)%Q /\
    ((acc == 100)%Q
     <-> [0; 0; 1; 0] = np_repeat_range (test_n_way baseline_2way) (n_query baseline_2way)) /\
    ((acc == 0)%Q
     <-> forall i, i < length [0; 0; 1; 0] ->
                   nth i [0; 0; 1; 0] 0 <> i / n_query baseline_2way).
Proof.
  assert (H : 0 < test_n_way baseline_2way * n_query baseline_2way) by (vm_compute; lia).
  split; [exact H|].
  apply (accuracy_bounds baseline_2way [0; 0; 1; 0] H). reflexivity.
Defined.

(** ** The half-width *)

Section HalfWidthMore.

Variable A : Type.
Context {RT : Runtime} {CO : Collaborators A RT}.

(** [_confidence_interval] for a positive [n_iter]: for [std >= 0] the
    half-width lies between 0 and [1.96 * std], it is [1.96 * std] itself
    when the run has a single episode and 0 when [std] is 0, and it does not
    decrease when [std] grows. *)
Theorem confidence_interval_bounds (self : MethodEvaluation) :
  0 < n_iter self ->
  (forall std, (0 <= std)%R ->
     (0 <= _confidence_interval self std <= 1.96 * std)%R) /\
  (n_iter self = 1 -> forall std, _confidence_interval self std = (1.96 * std)%R) /\
  _confidence_interval self 0 = 0%R /\
  (forall std std', (std <= std')%R ->
     (_confidence_interval self std <= _confidence_interval self std')%R).
Proof.
  intros Hpos.
  assert (Hs : (1 <= sqrt (INR (n_iter self)))%R).
  { rewrite <- sqrt_1 at 1. apply sqrt_le_1_alt.
    change 1%R with (INR 1). apply le_INR. lia. }
  assert (Hi : (0 < / sqrt (INR (n_iter self)) <= 1)%R).
  { split; [apply Rinv_0_lt_compat; lra|].
    apply Rle_trans with (/ 1)%R; [apply Rinv_le_contravar; lra|].
    rewrite Rinv_1; lra. }
  unfold _confidence_interval, Rdiv. repeat split.
  - intros; apply Rmult_le_pos; lra.
  - rewrite <- (Rmult_1_r (1.96 * std)) at 2.
    apply Rmult_le_compat_l; lra.
  - intros H1 std. rewrite H1. simpl INR. rewrite sqrt_1. field.
  - ring.
  - intros std std' Hle. apply Rmult_le_compat_r; lra.
Qed.

End HalfWidthMore.

Lemma confidence_interval_bounds_witness :
  0 < n_iter single_episode /\
  n_iter single_episode = 1 /\
  (forall std, (0 <= std)%R ->
     (0 <= _confidence_interval single_episode std <= 1.96 * std)%R) /\
  (forall std, _confidence_interval single_episode std = (1.96 * std)%R) /\
  (forall std std', (std <= std')%R ->
     (_confidence_interval single_episode std
      <= _confidence_interval single_episode std')%R).
Proof.
  assert (H : 0 < n_iter single_episode) by (vm_compute; lia).
  assert (H1 : n_iter single_episode = 1) by reflexivity.
  split; [exact H|]. split; [exact H1|].
  destruct (confidence_interval_bounds single_episode H) as (Hb & Hone & _ & Hmono).
  split; [exact Hb|]. split; [exact (Hone H1)|exact Hmono].
Defined.

(** ** The run: inputs that are missing or not used *)

Section ApplyMore.

Variable A : Type.
Variable nonzero : A -> bool.
Context {RT : Runtime} {CO : Collaborators A RT}.
Implicit Types (self : MethodEvaluation) (ms : model_state state_dict)
               (w : world rt_state).

(** Line 106: for the methods 'maml' and 'maml_approx' the run does not
    depend on [features_and_labels]: value, state of the process and results
    file are the same whatever is passed, also features that
    [_process_features] would reject. *)
Theorem maml_ignores_features self ms fl fl' w :
  str_in (method self) ["maml"; "maml_approx"] = true ->
  apply nonzero self ms fl w = apply nonzero self ms fl' w.
Proof. intros H. unfold apply, statistics. rewrite H. reflexivity. Qed.

(** For every other method, a run without features (the default [None] of
    [apply]) raises [TypeError] once the model is loaded, and writes
    nothing. *)
Theorem apply_without_features self ms w u g1 m g2 :
  str_in (method self) ["maml"; "maml_approx"] = false ->
  set_and_print_random_seed (random_seed self) true (checkpoint_dir self) (proc w)
    = (Ok u, g1) ->
  _load_model self ms g1 = (Ok m, g2) ->
  exists msg,
    apply nonzero self ms None w
    = (Raise (TypeError msg), {| proc := g2; results_txt := results_txt w |}).
Proof.
  intros Hm Hseed Hload. eexists. rewrite apply_run. unfold statistics.
  rewrite (bind_ok _ _ _ (lift_rt_run _ _ Hseed)).
  rewrite (bind_ok _ _ _ (lift_rt_run _ {| proc := g1; results_txt := results_txt w |} Hload)).
  rewrite Hm. reflexivity.
Qed.

Lemma str_in_eq (x : string) (l : list string) :
  str_in x l = true -> In x l.
Proof.
  unfold str_in; intros H. apply existsb_exists in H as (y & Hy & E).
  apply String.eqb_eq in E. now subst.
Qed.

(** A backbone that [model_dict] does not know: for the methods that look
    the backbone up before they build the model, [_load_model] raises
    [KeyError] with the name of the backbone, in the state it was called in,
    and the run raises it without writing.  For 'maml' and 'maml_approx' the
    flags of the backbone blocks are set before the lookup fails. *)
Theorem unknown_backbone_raises self ms :
  model_dict (backbone self) = None ->
  (str_in (method self) ["baseline"; "baseline++"; "protonet"; "matchingnet"] = true ->
   (forall g, _load_model self ms g = (Raise (KeyError (backbone self)), g)) /\
   (forall fl w u g1,
      set_and_print_random_seed (random_seed self) true (checkpoint_dir self) (proc w)
        = (Ok u, g1) ->
      apply nonzero self ms fl w
      = (Raise (KeyError (backbone self)),
         {| proc := g1; results_txt := results_txt w |}))) /\
  (str_in (method self) ["maml"; "maml_approx"] = true ->
   forall g, _load_model self ms g
             = match set_maml_flags g with
               | (Ok _, g1) => (Raise (KeyError (backbone self)), g1)
               | (Raise e, g1) => (Raise e, g1)
               end).
Proof.
  intros Hb; split.
  - intros Hm.
    assert (Hload : forall g, _load_model self ms g = (Raise (KeyError (backbone self)), g)).
    { intros g. apply str_in_eq in Hm. unfold _load_model, backbone_of.
      rewrite Hb. simpl in Hm.
      destruct Hm as [<-|[<-|[<-|[<-|[]]]]]; reflexivity. }
    split; [exact Hload|].
    intros fl w u g1 Hseed. rewrite apply_run. unfold statistics.
    rewrite (bind_ok _ _ _ (lift_rt_run _ _ Hseed)).
    set (w1 := {| proc := g1; results_txt := results_txt w |}).
    rewrite (bind_raise _ _ w1 (lift_rt_run (_load_model self ms) w1 (Hload g1))).
    reflexivity.
  - intros Hm g. apply str_in_eq in Hm. unfold _load_model, backbone_of.
    rewrite Hb. simpl in Hm.
    destruct Hm as [<-|[<-|[]]]; simpl; unfold bind, raise;
      destruct (set_maml_flags g) as [[u|e] g1]; reflexivity.
Qed.

End ApplyMore.

Lemma maml_ignores_features_witness :
  str_in (method (step "maml" 2 3 0)) ["maml"; "maml_approx"] = true /\
  apply (CO := always_class0) Z_nonzero (step "maml" 2 3 0) checkpoint None fresh
  = apply (CO := always_class0) Z_nonzero (step "maml" 2 3 0) checkpoint
          (Some abc_features) fresh.
Proof.
  assert (H : str_in (method (step "maml" 2 3 0)) ["maml"; "maml_approx"] = true)
    by reflexivity.
  split; [exact H|].
  apply (@maml_ignores_features Z Z_nonzero rotating always_class0
           (step "maml" 2 3 0) checkpoint None (Some abc_features) fresh H).
Defined.

Lemma apply_without_features_witness :
  str_in (method baseline_2way) ["maml"; "maml_approx"] = false /\
  exists msg,
    apply (CO := always_class0) Z_nonzero baseline_2way checkpoint None fresh
    = (Raise (TypeError msg), {| proc := 7; results_txt := [] |}).
Proof.
  assert (H : str_in (method baseline_2way) ["maml"; "maml_approx"] = false)
    by reflexivity.
  split; [exact H|].
  apply (@apply_without_features Z Z_nonzero rotating always_class0
           baseline_2way checkpoint fresh tt 7 (2, 0) 7 H); reflexivity.
Defined.

Lemma unknown_backbone_raises_witness :
  model_dict (Collaborators := always_class0) (backbone resnet_step) = None /\
  str_in (method resnet_step) ["baseline"; "baseline++"; "protonet"; "matchingnet"] = true /\
  (forall g, _load_model (CO := always_class0) resnet_step checkpoint g
             = (Raise (KeyError (backbone resnet_step)), g)) /\
  apply (CO := always_class0) Z_nonzero resnet_step checkpoint (Some abc_features) fresh
  = (Raise (KeyError "ResNet10"), {| proc := 7; results_txt := [] |}).
Proof.
  assert (Hb : model_dict (Collaborators := always_class0) (backbone resnet_step) = None)
    by reflexivity.
  assert (Hm : str_in (method resnet_step)
                 ["baseline"; "baseline++"; "protonet"; "matchingnet"] = true)
    by reflexivity.
  split; [exact Hb|]. split; [exact Hm|].
  destruct (proj1 (@unknown_backbone_raises Z Z_nonzero rotating always_class0
                     resnet_step checkpoint Hb) Hm) as [Hl Ha].
  split; [exact Hl|].
  apply (Ha (Some abc_features) fresh tt 7). reflexivity.
Defined.

(** ** Trimming, and episodes without swaps *)

Section TrimMore.

Variable A : Type.
Variable nonzero : A -> bool.

Lemma trim_keeps_nonzero_end (front : list (vector A)) row labels :
  any nonzero row = true ->
  trim_trailing_zeros nonzero (front ++ [row]) labels = Ok (front ++ [row], labels).
Proof.
  intros H. unfold trim_trailing_zeros. rewrite rev_app_distr. simpl. rewrite H.
  rewrite <- (rev_involutive labels) at 2.
  f_equal. f_equal. change (row :: rev front) with (rev [row] ++ rev front).
  now rewrite <- rev_app_distr, rev_involutive.
Qed.

(** Lines 274-276: when the builder returns, the arrays were cut after the
    last row that is not all zero: what was cut off are rows of zeros only
    (with as many labels), rows of zeros before that row are kept, and the
    pool is the one built from the kept rows; it holds one instance per kept
    label. *)
Theorem process_features_trims_trailing_zeros features labels fpl :
  _process_features nonzero (features, labels) = Ok fpl ->
  exists front row zeros kept_labels dropped,
    features = (front ++ [row]) ++ zeros /\
    labels = kept_labels ++ dropped /\
    any nonzero row = true /\
    Forall (fun r => any nonzero r = false) zeros /\
    length zeros = length dropped /\
    _process_features nonzero (front ++ [row], kept_labels) = Ok fpl /\
    length (instances fpl) = length kept_labels.
Proof.
  intros H0. pose proof H0 as H. unfold _process_features in H.
  destruct (trim_trailing_zeros nonzero features labels) as [[f' l']|] eqn:E;
    [|discriminate].
  destruct (trim_trailing_zeros_spec _ _ _ E)
    as (zs & ds & Hf & Hl & Hlen & Hz & front & row & -> & Hrow).
  exists front, row, zs, l', ds. repeat split; auto.
  - unfold _process_features. now rewrite (@trim_keeps_nonzero_end front row l' Hrow).
  - pose proof (group_by_label_instances _ _ _ H) as Hp.
    rewrite empty_classes_instances in Hp; simpl in Hp.
    rewrite (Permutation_length Hp), length_combine.
    apply group_by_label_length in H. lia.
Qed.

End TrimMore.

Lemma process_features_trims_trailing_zeros_witness :
  exists front row zeros kept_labels dropped,
    [[1]; [0]; [3]; [0]; [0]]%Z = (front ++ [row]) ++ zeros /\
    [7; 5; 7; 9; 9]%Z = kept_labels ++ dropped /\
    any Z_nonzero row = true /\
    Forall (fun r => any Z_nonzero r = false) zeros /\
    length zeros = length dropped /\
    _process_features Z_nonzero (front ++ [row], kept_labels)
      = Ok [(5, [[0]]); (7, [[1]; [3]])]%Z /\
    length (instances [(5, [[0]]); (7, [[1]; [3]])]%Z) = length kept_labels.
Proof.
  apply (@process_features_trims_trailing_zeros Z Z_nonzero
           [[1]; [0]; [3]; [0]; [0]]%Z [7; 5; 7; 9; 9]%Z).
  reflexivity.
Defined.

Section EpisodeMore.

Variable A : Type.
Context {RT : Runtime}.

(** [_set_classification_task] without swaps, on a pool with enough classes
    and instances whose vectors have a dimension [d] other than 1: it
    returns an array of shape [(n_way, n_shot + n_query, d)]; its rows
    belong, in order, to [n_way] distinct classes of the pool, and a row
    holds the vectors at [n_shot + n_query] distinct positions of its
    class. *)
Theorem episode_without_swaps (self : MethodEvaluation) (fpl : pool A) d g :
  enough self fpl d -> d <> 1 ->
  0 < test_n_way self -> 0 < n_shot self + n_query self ->
  n_swaps self = 0 ->
  exists select_class z g',
    _set_classification_task self fpl g = (Ok z, g') /\
    shape z = [test_n_way self; n_shot self + n_query self; d] /\
    length select_class = test_n_way self /\
    NoDup select_class /\ incl select_class (keys fpl) /\
    Forall2 (drawn_from self fpl) select_class z.
Proof.
  intros He Hd Hway Hk Hsw.
  destruct (sample_episode_spec g He) as (sel & z & g' & E & Hlen & Hnd & Hincl & F & Hs).
  exists sel, z, g'. repeat split; auto.
  - unfold _set_classification_task. rewrite (bind_ok _ _ _ E), Hsw. reflexivity.
  - unfold shape. rewrite Hs, shape_of_repeat by assumption.
    unfold squeezed_shape. destruct (Nat.eqb_spec d 1); [contradiction|reflexivity].
Qed.

End EpisodeMore.

Lemma episode_without_swaps_witness :
  enough baseline_2way abc_pool 2 /\
  exists select_class z g',
    _set_classification_task (RT := rotating) baseline_2way abc_pool 7 = (Ok z, g') /\
    shape z = [test_n_way baseline_2way; n_shot baseline_2way + n_query baseline_2way; 2] /\
    length select_class = test_n_way baseline_2way /\
    NoDup select_class /\ incl select_class (keys abc_pool) /\
    Forall2 (drawn_from baseline_2way abc_pool) select_class z.
Proof.
  assert (He : enough (A := Z) baseline_2way abc_pool 2).
  { unfold enough; simpl. repeat split; try lia;
      repeat constructor; simpl; intuition discriminate. }
  split; [exact He|].
  apply (@episode_without_swaps Z rotating baseline_2way abc_pool 2 7 He).
  - discriminate.
  - vm_compute; lia.
  - vm_compute; lia.
  - reflexivity.
Defined.
